(** * lite-image-export: the blob fetcher, the manifest builder and the
      archive assembler of [main.go], embedded in Rocq.

    The development follows the Go program function by function.  The file
    system is a finite map from paths to byte strings, the registry is an
    oracle answering the n-th HTTP request of a run, and every function
    threads a [World] that also records, in order, what the program does
    (requests, sleeps, deletions, writes) together with two markers
    (a retry cycle starts; the fetcher is called for a layer).  The two
    unbounded loops of [downloadLayerWithRetry] take fuel and report
    [Running] when it runs out, so what the program has done so far stays
    observable.

    Calls into libraries whose algorithms are not part of this repository
    (encoding/json, path/filepath, go-containerregistry) are section
    variables; crypto/sha256 and encoding/hex are written out so that
    digests can be computed.  The log calls of these functions have no
    effect on their control flow and are left out there.

    The selection of a platform image, the logger with its levels
    ([logger.go]) and the configuration ([config.go]) are embedded on their
    own: the logger as a state of its own, the configuration over an
    abstract disk and an environment.

    Definitions come first (the program, the vocabulary of the properties,
    the concrete runs used as examples); lemmas and theorems follow. *)

From Stdlib Require Import ZArith Lia Ascii.
From Stdlib Require String.
From Stdlib Require Import Init.Byte.
From stdpp Require Import base option list strings gmap pretty.

Local Open Scope Z_scope.

Set Warnings "-register-all".

(** ** Go's [strings] package, for the one-byte separators the program uses *)

Module GoStrings.

(** [strings.Split(s, sep)] for a separator of one byte. *)
Fixpoint Split (s : string) (sep : ascii) : list string :=
  match s with
  | EmptyString => [EmptyString]
  | String c s' =>
      if decide (c = sep) then EmptyString :: Split s' sep
      else match Split s' sep with
           | [] => [String c EmptyString]
           | h :: t => String c h :: t
           end
  end.

(** [strings.SplitN(s, sep, 2)]: cut at the first separator only. *)
Fixpoint SplitN2 (s : string) (sep : ascii) : list string :=
  match s with
  | EmptyString => [EmptyString]
  | String c s' =>
      if decide (c = sep) then [EmptyString; s']
      else match SplitN2 s' sep with
           | [] => [String c EmptyString]
           | h :: t => String c h :: t
           end
  end.

Fixpoint TrimLeft (s : string) (cut : ascii) : string :=
  match s with
  | EmptyString => EmptyString
  | String c s' => if decide (c = cut) then TrimLeft s' cut else s
  end.

Fixpoint TrimRight (s : string) (cut : ascii) : string :=
  match s with
  | EmptyString => EmptyString
  | String c s' =>
      match TrimRight s' cut with
      | EmptyString => if decide (c = cut) then EmptyString else String c EmptyString
      | r => String c r
      end
  end.

(** [strings.Trim(s, cutset)] for a cutset of one byte. *)
Definition Trim (s : string) (cut : ascii) : string :=
  TrimRight (TrimLeft s cut) cut.

(** [strings.LastIndex(s, sep)] for a separator of one byte; -1 when the
    separator does not occur.  [i] is the index of the head of [s]. *)
Fixpoint LastIndex_from (i : Z) (s : string) (sep : ascii) : Z :=
  match s with
  | EmptyString => -1
  | String c s' =>
      let r := LastIndex_from (i + 1) s' sep in
      if decide (r = -1) then (if decide (c = sep) then i else -1) else r
  end.

Definition LastIndex (s : string) (sep : ascii) : Z := LastIndex_from 0 s sep.

(** The slice expressions [s[:i]] and [s[i:]], used with 0 <= i <= len(s). *)
Definition slice_to (s : string) (i : Z) : string :=
  String.substring 0 (Z.to_nat i) s.
Definition slice_from (s : string) (i : Z) : string :=
  String.substring (Z.to_nat i) (String.length s - Z.to_nat i) s.

(** [strings.Cut(s, sep)]: the text before and after the first separator. *)
Fixpoint Cut (s : string) (sep : ascii) : string * string * bool :=
  match s with
  | EmptyString => (EmptyString, EmptyString, false)
  | String c s' =>
      if decide (c = sep) then (EmptyString, s', true)
      else match Cut s' sep with
           | (b, a, true) => (String c b, a, true)
           | (_, _, false) => (s, EmptyString, false)
           end
  end.

(** [strings.Join(parts, sep)]. *)
Fixpoint Join (parts : list string) (sep : string) : string :=
  match parts with
  | [] => EmptyString
  | [p] => p
  | p :: rest => p +:+ sep +:+ Join rest sep
  end.

End GoStrings.

(** ** crypto/sha256 and encoding/hex *)

Module sha256.

Definition w32 (x : Z) : Z := x mod 2 ^ 32.
Definition add32 (x y : Z) : Z := w32 (x + y).
Definition rotr (n x : Z) : Z :=
  Z.lor (Z.shiftr x n) (w32 (Z.shiftl x (32 - n))).
Definition not32 (x : Z) : Z := Z.lxor x (2 ^ 32 - 1).

Definition choose (x y z : Z) : Z := Z.lxor (Z.land x y) (Z.land (not32 x) z).
Definition majority (x y z : Z) : Z :=
  Z.lxor (Z.lxor (Z.land x y) (Z.land x z)) (Z.land y z).
Definition big_sigma0 (x : Z) : Z := Z.lxor (Z.lxor (rotr 2 x) (rotr 13 x)) (rotr 22 x).
Definition big_sigma1 (x : Z) : Z := Z.lxor (Z.lxor (rotr 6 x) (rotr 11 x)) (rotr 25 x).
Definition small_sigma0 (x : Z) : Z :=
  Z.lxor (Z.lxor (rotr 7 x) (rotr 18 x)) (Z.shiftr x 3).
Definition small_sigma1 (x : Z) : Z :=
  Z.lxor (Z.lxor (rotr 17 x) (rotr 19 x)) (Z.shiftr x 10).

(** The constants are the leading fractional bits of the square and cube
    roots of the first primes; they are computed rather than tabulated. *)
Definition is_prime (n : Z) : bool :=
  (1 <? n) && forallb (fun d => negb (n mod d =? 0))
                (List.filter (fun d => d * d <=? n) (map Z.of_nat (seq 2 18))).

Definition primes64 : list Z :=
  Eval vm_compute in firstn 64 (List.filter is_prime (map Z.of_nat (seq 2 400))).

(** Integer cube root by bisection on the bits of the result. *)
Definition icbrt (n : Z) : Z :=
  fold_left (fun r b => let c := r + 2 ^ b in if c * c * c <=? n then c else r)
    (map Z.of_nat (rev (seq 0 40))) 0.

Definition round_constants : list Z :=
  Eval vm_compute in map (fun p => w32 (icbrt (p * 2 ^ 96))) primes64.

Definition initial_hash : list Z :=
  Eval vm_compute in map (fun p => w32 (Z.sqrt (p * 2 ^ 64))) (firstn 8 primes64).

Definition byteZ (b : byte) : Z := Z.of_N (Byte.to_N b).

Definition be_bytes (n : nat) (x : Z) : list Z :=
  map (fun i => (Z.shiftr x (8 * Z.of_nat i)) mod 256) (rev (seq 0 n)).

Definition pad (msg : list Z) : list Z :=
  let len := Z.of_nat (length msg) in
  let zeros := Z.to_nat ((55 - len) mod 64) in
  msg ++ [128] ++ repeat 0 zeros ++ be_bytes 8 (8 * len).

Fixpoint words (n : nat) (bs : list Z) : list Z :=
  match n, bs with
  | S n', b0 :: b1 :: b2 :: b3 :: rest =>
      (((b0 * 256 + b1) * 256 + b2) * 256 + b3) :: words n' rest
  | _, _ => []
  end.

Definition at_ (l : list Z) (i : nat) : Z := nth i l 0.

(** The message schedule, kept newest first while it is extended. *)
Definition schedule (block : list Z) : list Z :=
  rev (fold_left
         (fun acc _ =>
            add32 (add32 (small_sigma1 (at_ acc 1)) (at_ acc 6))
                  (add32 (small_sigma0 (at_ acc 14)) (at_ acc 15)) :: acc)
         (seq 16 48) (rev block)).

Definition round (st : list Z) (kw : Z * Z) : list Z :=
  match st with
  | [a; b; c; d; e; f; g; h] =>
      let t1 := add32 (add32 (add32 h (big_sigma1 e)) (add32 (choose e f g) (fst kw))) (snd kw) in
      let t2 := add32 (big_sigma0 a) (majority a b c) in
      [add32 t1 t2; a; b; c; add32 d t1; e; f; g]
  | _ => st
  end.

Definition compress (h : list Z) (block : list Z) : list Z :=
  let st := fold_left round (zip round_constants (schedule block)) h in
  zip_with add32 h st.

Fixpoint blocks (n : nat) (ws : list Z) : list (list Z) :=
  match n with
  | O => []
  | S n' => match ws with
            | [] => []
            | _ => firstn 16 ws :: blocks n' (skipn 16 ws)
            end
  end.

(** [sha256.Sum256]: the 32 digest bytes of a message. *)
Definition Sum (msg : list byte) : list Z :=
  let padded := pad (map byteZ msg) in
  let ws := words (length padded) padded in
  let h := fold_left compress (blocks (length ws) ws) initial_hash in
  flat_map (be_bytes 4) h.

End sha256.

Module hex.

Definition digit (n : Z) : ascii :=
  Ascii.ascii_of_nat (Z.to_nat (if n <? 10 then 48 + n else 87 + n)).

(** [hex.EncodeToString]: two lower-case digits per byte. *)
Fixpoint EncodeToString (bs : list Z) : string :=
  match bs with
  | [] => EmptyString
  | b :: rest => String (digit (b / 16)) (String (digit (b mod 16)) (EncodeToString rest))
  end.

End hex.

Definition bytes_of (s : string) : list byte := String.list_byte_of_string s.

(** ** Errors ([logger.go]) *)

Inductive ErrorCode :=
  | ErrCodeConfigLoad | ErrCodeConfigValidate | ErrCodeImageParse
  | ErrCodeImageDownload | ErrCodeFileOperation | ErrCodeNetworkError
  | ErrCodeAuthError | ErrCodeChecksumError | ErrCodeTarAssembly
  | ErrCodeConfigError.

(** A Go [error] value: nil, an [AppError] of this program, or an error
  handed back by the operating system or a library, of which only a label
  is kept. *)
Inductive error :=
  | err_nil
  | AppError (Code : ErrorCode) (Message : string) (Cause : error)
  | LibError (label : string).

Definition WrapError (code : ErrorCode) (message : string) (err : error) : error :=
  AppError code message err.

Definition is_nil (e : error) : bool :=
  match e with err_nil => true | _ => false end.

Definition code_of (e : error) : option ErrorCode :=
  match e with
  | AppError c _ _ => Some c
  | _ => None
  end.

(** ** The world: files, archives being written, and what has happened *)

(** The program uses two HTTP clients: [authClient] for the token handshake
  and [client] for the blobs. *)
Inductive Client := AuthClient | BlobClient.

Record Request := {
  URL : string;
  Authorization : option string;
  Range : option string
}.

Record Response := {
  StatusCode : Z;
  WwwAuthenticate : string;      (* resp.Header.Get("Www-Authenticate") *)
  Body : list byte;              (* the bytes the body delivers *)
  BodyErr : bool                 (* reading the body ends in an error *)
}.

Record TarHeader := { Name : string; Mode : Z; Size : Z }.

Inductive Event :=
  | EvGet (c : Client) (req : Request)       (* Get / Do called *)
  | EvSleep (seconds : Z)                    (* time.Sleep *)
  | EvRemove (path : string)                 (* os.Remove succeeded *)
  | EvTruncate (path : string)               (* os.Truncate(path, 0) succeeded *)
  | EvCreate (path : string)                 (* opened with O_CREATE|O_TRUNC *)
  | EvAppend (path : string) (data : list byte)  (* bytes copied into the file *)
  | EvWriteFile (path : string)              (* os.WriteFile *)
  | EvCycle (onDisk : Z)
      (* marker: the fetch loop enters its retry loop, with this many bytes on disk *)
  | EvFetchLayer (url dest : string) (size : Z) (digest : string).
    (* marker: downloadLayerWithRetry is called with these arguments *)

Record World := {
  files : gmap string (list byte);
  tars : gmap string (list (TarHeader * list byte));
  trace : list Event
}.

Definition with_files (f : gmap string (list byte) -> gmap string (list byte)) (w : World) : World :=
  {| files := f (files w); tars := tars w; trace := trace w |}.

Definition log (e : Event) (w : World) : World :=
  {| files := files w; tars := tars w; trace := trace w ++ [e] |}.

Definition is_get (e : Event) : bool :=
  match e with EvGet _ _ => true | _ => false end.

Definition requests_made (w : World) : nat := length (List.filter is_get (trace w)).

(** What a Go function returns when the modelled loops are given fuel. *)
Inductive Outcome (A : Type) :=
  | Running                 (* out of fuel: the call has not returned yet *)
  | Returned (a : A).
Arguments Running {A}.
Arguments Returned {A} a.

(** *** File operations.  An operation fails exactly when the map says the
  file is missing; other failures of the operating system are not modelled. *)

Definition getFileSize (w : World) (filePath : string) : Z :=
  match files w !! filePath with
  | Some data => Z.of_nat (length data)
  | None => 0
  end.

Definition os_Remove (path : string) (w : World) : World * error :=
  match files w !! path with
  | Some _ => (log (EvRemove path) (with_files (delete path) w), err_nil)
  | None => (w, LibError "remove: no such file or directory")
  end.

Definition os_Truncate0 (path : string) (w : World) : World * error :=
  match files w !! path with
  | Some _ => (log (EvTruncate path) (with_files (<[path := []]>) w), err_nil)
  | None => (w, LibError "truncate: no such file or directory")
  end.

Definition os_WriteFile (path : string) (data : list byte) (w : World) : World :=
  log (EvWriteFile path) (with_files (<[path := data]>) w).

(** [os.OpenFile(path, O_WRONLY|O_APPEND)] followed by [io.Copy]. *)
Definition append_file (path : string) (data : list byte) (w : World) : option World :=
  match files w !! path with
  | Some old => Some (log (EvAppend path data) (with_files (<[path := old ++ data]>) w))
  | None => None
  end.

(** [os.OpenFile(path, O_CREATE|O_TRUNC|O_WRONLY)] followed by [io.Copy]. *)
Definition create_file (path : string) (data : list byte) (w : World) : World :=
  log (EvAppend path data) (log (EvCreate path) (with_files (<[path := data]>) w)).

Definition time_Sleep (seconds : Z) (w : World) : World := log (EvSleep seconds) w.

(** ** [main.go] *)

Definition maxRetries : Z := 5.

(** [fmt.Sprintf("%d", n)] *)
Definition fmt_d (n : Z) : string := pretty n.

Definition digest_of (data : list byte) : string :=
  "sha256:" +:+ hex.EncodeToString (sha256.Sum data).

(** The byte of a double quote, the cutset of [strings.Trim(kv[1], ...)]. *)
Definition dquote : ascii := Ascii.ascii_of_nat 34.

(** parseAuthHeader parses the Www-Authenticate header. *)
Definition parseAuthHeader (header : string) : gmap string string :=
  match GoStrings.SplitN2 header " " with
  | [p0; p1] =>
      if decide (p0 = "Bearer") then
        fold_left
          (fun authHeader param =>
             match GoStrings.SplitN2 param "=" with
             | [k; v] => <[k := GoStrings.Trim v dquote]> authHeader
             | _ => authHeader
             end)
          (GoStrings.Split p1 ",") ∅
      else ∅
  | _ => ∅
  end.

Definition validateFileIntegrity (w : World) (filePath expectedDigest : string) : error :=
  match files w !! filePath with
  | None => WrapError ErrCodeFileOperation "无法打开文件进行校验"
              (LibError "open: no such file or directory")
  | Some data =>
      let actualDigest := digest_of data in
      if decide (actualDigest ≠ expectedDigest) then
        WrapError ErrCodeChecksumError
          ("校验失败: 预期摘要 " +:+ expectedDigest +:+ ", 实际摘要 " +:+ actualDigest) err_nil
      else err_nil
  end.

(** ** Images, as go-containerregistry hands them to the program *)

Record Hash := { Algorithm : string; Hex : string }.

(** [Hash.String()] *)
Definition Hash_String (h : Hash) : string := Algorithm h +:+ ":" +:+ Hex h.

(** A [v1.Layer]: what its methods return, value and error as in Go. *)
Record Layer := {
  layer_Digest : Hash * error;
  layer_Size : Z * error;
  layer_UncompressedSize : Z * error        (* partial.UncompressedSize(layer) *)
}.

Record StreamOptions := {
  Platform : string;
  Compression : bool;
  UseCompressedLayers : bool
}.

(** The dynamic values behind [interface{}] in the manifest maps. *)
Inductive Value :=
  | VNil
  | VBool (b : bool)
  | VNumber (text : string)
  | VString (s : string)
  | VStrings (l : list string)              (* []string *)
  | VSlice (l : list Value)                 (* []interface{} *)
  | VObject (fields : list (string * Value)). (* map[string]interface{} *)

(** A parsed image reference, as far as the program looks at it:
  [imageRef.Context().RegistryStr()] and [.RepositoryStr()]. *)
Record Reference := { RegistryStr : string; RepositoryStr : string }.

Section Program.

(** The registry and the network: the answer to the n-th request of the
    run, [None] when the client returns an error instead of a response. *)
Variable registry : nat -> Request -> option Response.

(** [json.NewDecoder(body).Decode(&tokenData)] on a body that delivers
    these bytes and then ends, normally or (flag set) with a read error:
    the [token] field of the document, [None] when decoding fails. *)
Variable json_DecodeToken : list byte -> bool -> option string.

Definition http_Do (c : Client) (req : Request) (w : World) : World * option Response :=
  (log (EvGet c req) w, registry (requests_made w) req).

Definition http_Get (c : Client) (url : string) (w : World) : World * option Response :=
  http_Do c {| URL := url; Authorization := None; Range := None |} w.

(** The closure of [downloadLayerWithRetry] that gets the auth token once. *)
Definition authToken (imageRef : Reference) (w : World) : World * (string * error) :=
  let authURL := "https://" +:+ RegistryStr imageRef +:+ "/v2/" in
  let '(w, r) := http_Get AuthClient authURL w in
  match r with
  | None => (w, ("", WrapError ErrCodeNetworkError "认证预请求失败" (LibError "Get")))
  | Some resp =>
      if decide (StatusCode resp = 401) then
        let authHeader := parseAuthHeader (WwwAuthenticate resp) in
        let realm := default "" (authHeader !! "realm") in
        let service := default "" (authHeader !! "service") in
        let scope := default "" (authHeader !! "scope") in
        let scope :=
          if decide (scope = "") then "repository:" +:+ RepositoryStr imageRef +:+ ":pull"
          else scope in
        let tokenURL := realm +:+ "?service=" +:+ service +:+ "&scope=" +:+ scope in
        let '(w, tr) := http_Get AuthClient tokenURL w in
        match tr with
        | None => (w, ("", WrapError ErrCodeNetworkError "获取 token 请求失败" (LibError "Get")))
        | Some tokenResp =>
            if decide (StatusCode tokenResp ≠ 200) then
              (w, ("", WrapError ErrCodeAuthError
                         ("获取 token 失败，状态码: " +:+ fmt_d (StatusCode tokenResp)
                          +:+ ", 响应: " +:+ String.string_of_list_byte (Body tokenResp))
                         err_nil))
            else
              match json_DecodeToken (Body tokenResp) (BodyErr tokenResp) with
              | None => (w, ("", WrapError ErrCodeAuthError "解析 token 失败" (LibError "Decode")))
              | Some token => (w, (token, err_nil))
              end
        end
      else if decide (StatusCode resp ≠ 200) then
        (w, ("", WrapError ErrCodeAuthError
                   ("认证请求失败，状态码: " +:+ fmt_d (StatusCode resp)) err_nil))
      else (w, ("", err_nil))   (* No auth needed *)
  end.

Section Download.

Variables (layerURL destPath : string) (size : Z) (expectedDigest token : string).

Definition blobRequest (currentSize : Z) : Request :=
  {| URL := layerURL;
     Authorization := if decide (token ≠ "") then Some ("Bearer " +:+ token) else None;
     Range := if decide (0 < currentSize)
              then Some ("bytes=" +:+ fmt_d currentSize +:+ "-") else None |}.

(** The anonymous function of the retry loop: what is done with a
    response.  Returns the world, [lastErr] and [chunkDownloaded]. *)
Definition handleResponse (resp : Response) (retries : Z) (lastErr : error) (w : World)
  : World * error * bool :=
  let opened : option (World + error * World) :=
    if decide (StatusCode resp = 206) then
      match append_file destPath (Body resp) w with
      | Some w' => Some (inl w')
      | None => Some (inr (LibError "open: no such file or directory", w))
      end
    else if decide (StatusCode resp = 200) then
      Some (inl (create_file destPath (Body resp) w))
    else None in
  match opened with
  | None =>
      (time_Sleep ((retries + 1) * 2) w,
       WrapError ErrCodeNetworkError ("下载失败，状态码: " +:+ fmt_d (StatusCode resp)) err_nil,
       false)
  | Some (inr (openErr, w)) =>
      (time_Sleep ((retries + 1) * 2) w,
       WrapError ErrCodeFileOperation ("打开目标文件 " +:+ destPath +:+ " 失败") openErr,
       false)
  | Some (inl w) =>
      if BodyErr resp then
        (time_Sleep ((retries + 1) * 2) w,
         WrapError ErrCodeFileOperation "复制层数据时出错" (LibError "Copy"),
         false)
      else (w, lastErr, true)
  end.

(** The retry loop [for retries := 0; retries < maxRetries; { ... }],
    entered with [retries] and [lastErr]; it leaves with
    [(chunkDownloaded, lastErr)].  [http.NewRequest] fails only on a
    URL it cannot parse; that return is left out. *)
Fixpoint retryLoop (fuel : nat) (retries : Z) (lastErr : error) (w : World)
  : World * Outcome (bool * error) :=
  match fuel with
  | O => (w, Running)
  | S fuel' =>
      if decide (retries < maxRetries) then
        let currentSize := getFileSize w destPath in
        let retries := if decide (0 < currentSize) then retries else retries + 1 in
        let '(w, r) := http_Do BlobClient (blobRequest currentSize) w in
        match r with
        | None =>
            retryLoop fuel' retries
              (WrapError ErrCodeNetworkError "请求失败" (LibError "Do"))
              (time_Sleep ((retries + 1) * 2) w)
        | Some resp =>
            let '(w, lastErr, chunkDownloaded) := handleResponse resp retries lastErr w in
            if chunkDownloaded then (w, Returned (true, lastErr))
            else retryLoop fuel' retries lastErr w
        end
      else (w, Returned (false, lastErr))
  end.

(** The outer [for { ... }] of [downloadLayerWithRetry]. *)
Fixpoint fetchLoop (fuel : nat) (w : World) : World * Outcome error :=
  match fuel with
  | O => (w, Running)
  | S fuel' =>
      let currentSize := getFileSize w destPath in
      if decide (0 < size ∧ currentSize = size) then
        if is_nil (validateFileIntegrity w destPath expectedDigest) then (w, Returned err_nil)
        else fetchLoop fuel' (fst (os_Remove destPath w))
      else
        let '(w, truncErr) :=
          if decide (0 < size ∧ size < currentSize) then os_Truncate0 destPath w
          else (w, err_nil) in
        if is_nil truncErr then
          match retryLoop fuel' 0 err_nil (log (EvCycle (getFileSize w destPath)) w) with
          | (w, Running) => (w, Running)
          | (w, Returned (true, _)) => fetchLoop fuel' w
          | (w, Returned (false, lastErr)) =>
              (w, Returned (WrapError ErrCodeImageDownload
                              ("经过 " +:+ fmt_d maxRetries +:+ " 次尝试后，层块下载失败") lastErr))
          end
        else (w, Returned (WrapError ErrCodeFileOperation "无法截断文件" truncErr))
  end.

End Download.

(** downloadLayerWithRetry: the check of a file that is already there, the
    token, then the fetch loop. *)
Definition downloadLayerWithRetry (fuel : nat) (imageRef : Reference)
    (layerURL destPath : string) (size : Z) (expectedDigest : string) (w : World)
  : World * Outcome error :=
  let localSize := getFileSize w destPath in
  let '(w, done) :=
    if decide (0 < localSize ∧ 0 < size ∧ localSize = size) then
      if decide (expectedDigest ≠ "") then
        if is_nil (validateFileIntegrity w destPath expectedDigest) then (w, true)
        else (fst (os_Remove destPath w), false)
      else (w, true)
    else (w, false) in
  if (done : bool) then (w, Returned err_nil)
  else
    let '(w, (token, err)) := authToken imageRef w in
    if is_nil err then fetchLoop layerURL destPath size expectedDigest token fuel w
    else (w, Returned (WrapError ErrCodeAuthError "认证失败" err)).

(** *** The manifest builder *)

(** The image configuration and its JSON encoding. *)
Variable ConfigFile : Type.
Variable json_MarshalConfig : ConfigFile -> list byte * error.
Variable json_MarshalManifest : list (gmap string Value) -> list byte * error.
Variable json_MarshalRepositories : gmap string (gmap string string) -> list byte * error.

(** [name.ParseReference] *)
Variable name_ParseReference : string -> Reference * error.

(** A [v1.Image]: what [ConfigFile()], [Layers()] and [ConfigName()] return. *)
Record Image := {
    img_ConfigFile : ConfigFile * error;
    img_Layers : list Layer * error;
    img_ConfigName : Hash * error
}.

(** The first loop of [streamDockerFormatWithReturn]: the digests of all
    layers, for the manifest. *)
Fixpoint collectDigests (layers : list Layer) : list string * error :=
  match layers with
  | [] => ([], err_nil)
  | layer :: rest =>
      let '(digest, err) := layer_Digest layer in
      if is_nil err then
        let '(ds, err') := collectDigests rest in
        (Hash_String digest :: ds, err')
      else ([], WrapError ErrCodeImageParse "获取层摘要失败" err)
  end.

(** The body of the second loop: one layer is sized and fetched. *)
Definition fetchLayer (fuel : nat) (options : option StreamOptions)
    (imageRef outputDir : string) (layer : Layer) (w : World) : World * Outcome error :=
  let '(digest, err) := layer_Digest layer in
  if is_nil err then
    let '(layerSize, err) :=
      match options with
      | Some o => if UseCompressedLayers o then layer_Size layer
                  else layer_UncompressedSize layer
      | None => layer_UncompressedSize layer
      end in
    if is_nil err then
      let layerPath := outputDir +:+ "/" +:+ Hash_String digest +:+ ".tar" in
      let '(imageRefInfo, err) := name_ParseReference imageRef in
      if is_nil err then
        let layerURL := "https://" +:+ RegistryStr imageRefInfo +:+ "/v2/"
                        +:+ RepositoryStr imageRefInfo +:+ "/blobs/" +:+ Hash_String digest in
        let w := log (EvFetchLayer layerURL layerPath layerSize (Hash_String digest)) w in
        match downloadLayerWithRetry fuel imageRefInfo layerURL layerPath layerSize
                (Hash_String digest) w with
        | (w, Running) => (w, Running)
        | (w, Returned err) =>
            if is_nil err then (w, Returned err_nil)
            else (w, Returned (WrapError ErrCodeImageDownload
                                 ("通过 REST 下载层 " +:+ Hash_String digest +:+ " 失败") err))
        end
      else (w, Returned (WrapError ErrCodeImageParse "解析镜像引用失败" err))
    else (w, Returned (WrapError ErrCodeImageParse "获取层大小失败" err))
  else (w, Returned (WrapError ErrCodeImageParse "获取层摘要失败" err)).

(** The second loop: every layer of [layers], in order, until one fails. *)
Fixpoint fetchLayers (fuel : nat) (options : option StreamOptions)
    (imageRef outputDir : string) (layers : list Layer) (w : World) : World * Outcome error :=
  match layers with
  | [] => (w, Returned err_nil)
  | layer :: rest =>
      match fetchLayer fuel options imageRef outputDir layer w with
      | (w, Running) => (w, Running)
      | (w, Returned err) =>
          if is_nil err then fetchLayers fuel options imageRef outputDir rest w
          else (w, Returned err)
      end
  end.

(** [singleManifest]: the manifest entry of one image. *)
Definition singleManifest (configDigest : Hash) (imageRef : string)
    (layerDigests : list string) : gmap string Value :=
  {[ "Config" := VString (Hash_String configDigest +:+ ".json");
     "RepoTags" := VStrings [imageRef];
     "Layers" := VStrings (map (fun digest => digest +:+ ".tar") layerDigests) ]}.

(** [repositories]: repository name and tag, cut at the last colon. *)
Definition repositories (configDigest : Hash) (imageRef : string)
  : gmap string (gmap string string) :=
  let i := GoStrings.LastIndex imageRef ":" in
  if decide (-1 < i) then
    let repoName := GoStrings.slice_to imageRef i in
    let tag := GoStrings.slice_from imageRef (i + 1) in
    {[ repoName := {[ tag := Hash_String configDigest ]} ]}
  else ∅.

(** What [streamDockerFormatWithReturn] stores through [manifestOut] and
    [repositoriesOut] when both are given. *)
Definition Outs : Type := option (gmap string Value * gmap string (gmap string string)).

(** streamDockerFormatWithReturn; [wantOut] says that [manifestOut] and
    [repositoriesOut] are both non-nil. *)
Definition streamDockerFormatWithReturn (fuel : nat) (img : Image) (layers : list Layer)
    (configFile : ConfigFile) (imageRef : string) (wantOut : bool)
    (options : option StreamOptions) (outputDir : string) (w : World)
  : World * Outcome error * Outs :=
  let '(configDigest, err) := img_ConfigName img in
  if is_nil err then
    let '(configData, err) := json_MarshalConfig configFile in
    if is_nil err then
      let configPath := outputDir +:+ "/" +:+ Hash_String configDigest +:+ ".json" in
      let w := os_WriteFile configPath configData w in
      let '(layerDigests, err) := collectDigests layers in
      if is_nil err then
        match fetchLayers fuel options imageRef outputDir layers w with
        | (w, Running) => (w, Running, None)
        | (w, Returned err) =>
            if is_nil err then
              let manifestEntry := singleManifest configDigest imageRef layerDigests in
              let repos := repositories configDigest imageRef in
              if wantOut then (w, Returned err_nil, Some (manifestEntry, repos))
              else
                let '(manifestData, err) := json_MarshalManifest [manifestEntry] in
                if is_nil err then
                  let w := os_WriteFile (outputDir +:+ "/manifest.json") manifestData w in
                  let '(repositoriesData, err) := json_MarshalRepositories repos in
                  if is_nil err then
                    (os_WriteFile (outputDir +:+ "/repositories") repositoriesData w,
                     Returned err_nil, None)
                  else (w, Returned (WrapError ErrCodeFileOperation "序列化repositories失败" err), None)
                else (w, Returned (WrapError ErrCodeFileOperation "序列化manifest失败" err), None)
            else (w, Returned err, None)
        end
      else (w, Returned err, None)
    else (w, Returned (WrapError ErrCodeImageParse "序列化配置文件失败" err), None)
  else (w, Returned (WrapError ErrCodeImageParse "获取配置摘要失败" err), None).

(** streamImageLayers: all layers of the image go to the builder;
    [existLayers] is not looked at. *)
Definition streamImageLayers (fuel : nat) (img : Image) (existLayers : list string)
    (outputDir : string) (options : option StreamOptions) (imageRef : string) (w : World)
  : World * Outcome error :=
  let '(configFile, err) := img_ConfigFile img in
  if is_nil err then
    let '(layers, err) := img_Layers img in
    if is_nil err then
      fst (streamDockerFormatWithReturn fuel img layers configFile imageRef false
             options outputDir w)
    else (w, Returned (WrapError ErrCodeImageParse "获取镜像层失败" err))
  else (w, Returned (WrapError ErrCodeImageParse "获取镜像配置失败" err)).

(** *** The archive assembler *)

(** [json.Unmarshal(manifestData, &manifest)] *)
Variable json_UnmarshalManifest : list byte -> list (gmap string Value) * error.

(** [filepath.Join] *)
Variable filepath_Join : string -> string -> string.

(** [os.Create(tarPath)] and [tar.NewWriter]: the archive starts empty.
    The archive is kept apart from [files]; the program writes it next to
    the output directory, never over a file it reads. *)
Definition tar_Create (tarPath : string) (w : World) : World :=
  {| files := files w; tars := <[tarPath := []]> (tars w); trace := trace w |}.

Definition tar_Write (tarPath : string) (entry : TarHeader * list byte) (w : World) : World :=
  {| files := files w;
     tars := <[tarPath := default [] (tars w !! tarPath) ++ [entry]]> (tars w);
     trace := trace w |}.

(** addFileToTar; [tw] is the writer of the archive at [tarPath]. *)
Definition addFileToTar (tw : string) (filePath nameInTar : string) (w : World)
  : World * error :=
  match files w !! filePath with
  | None => (w, WrapError ErrCodeFileOperation ("打开文件 " +:+ filePath +:+ " 失败")
                  (LibError "open: no such file or directory"))
  | Some data =>
      let hdr := {| Name := nameInTar; Mode := 420; Size := Z.of_nat (length data) |} in
      (tar_Write tw (hdr, data) w, err_nil)
  end.

(** The loop over the layer references of one manifest entry. *)
Fixpoint addLayers (tw outputDir : string) (layers : list Value) (w : World)
  : World * error :=
  match layers with
  | [] => (w, err_nil)
  | VString layerPath :: rest =>
      let fullLayerPath := filepath_Join outputDir layerPath in
      let '(w, err) := addFileToTar tw fullLayerPath layerPath w in
      if is_nil err then addLayers tw outputDir rest w
      else (w, WrapError ErrCodeTarAssembly ("添加层文件 " +:+ layerPath +:+ " 到 tar 失败") err)
  | _ :: rest => addLayers tw outputDir rest w
  end.

(** The body of the loop over the manifest: the configuration, then the layers. *)
Definition addImage (tw outputDir : string) (m : gmap string Value) (w : World)
  : World * error :=
  let '(w, err) :=
    match m !! "Config" with
    | Some (VString config) =>
        let '(w, err) := addFileToTar tw (filepath_Join outputDir config) config w in
        if is_nil err then (w, err_nil)
        else (w, WrapError ErrCodeTarAssembly ("添加配置文件 " +:+ config +:+ " 到 tar 失败") err)
    | _ => (w, err_nil)
    end in
  if is_nil err then
    match m !! "Layers" with
    | Some (VSlice layers) => addLayers tw outputDir layers w
    | _ => (w, err_nil)
    end
  else (w, err).

Fixpoint addImages (tw outputDir : string) (manifest : list (gmap string Value)) (w : World)
  : World * error :=
  match manifest with
  | [] => (w, err_nil)
  | m :: rest =>
      let '(w, err) := addImage tw outputDir m w in
      if is_nil err then addImages tw outputDir rest w else (w, err)
  end.

Definition assembleImageTar (outputDir tarPath : string) (w : World) : World * error :=
  let manifestPath := filepath_Join outputDir "manifest.json" in
  match files w !! manifestPath with
  | None => (w, WrapError ErrCodeFileOperation "读取 manifest.json 失败"
                  (LibError "open: no such file or directory"))
  | Some manifestData =>
      let '(manifest, err) := json_UnmarshalManifest manifestData in
      if is_nil err then
        if decide (length manifest = 0%nat) then
          (w, WrapError ErrCodeImageParse "manifest.json 为空或格式不正确" err_nil)
        else
          let w := tar_Create tarPath w in
          let '(w, err) := addFileToTar tarPath manifestPath "manifest.json" w in
          if is_nil err then
            let repositoriesPath := filepath_Join outputDir "repositories" in
            let '(w, err) :=
              match files w !! repositoriesPath with
              | Some _ =>
                  let '(w, err) := addFileToTar tarPath repositoriesPath "repositories" w in
                  if is_nil err then (w, err_nil)
                  else (w, WrapError ErrCodeTarAssembly "添加 repositories 到 tar 失败" err)
              | None => (w, err_nil)
              end in
            if is_nil err then addImages tarPath outputDir manifest w
            else (w, err)
          else (w, WrapError ErrCodeTarAssembly "添加 manifest.json 到 tar 失败" err)
      else (w, WrapError ErrCodeImageParse "解析 manifest.json 失败" err)
  end.

End Program.

(** * Vocabulary of the properties *)

(** The events a call appends to the trace. *)
Definition events_since (w w' : World) : list Event :=
  drop (length (trace w)) (trace w').

(** [grows P w w']: from [w] to [w'] events were only appended, all in [P]. *)
Definition grows (P : Event -> Prop) (w w' : World) : Prop :=
  exists evs, trace w' = trace w ++ evs /\ Forall P evs.

(** The destination holds exactly [size] bytes with digest [expectedDigest]. *)
Definition file_ok (w : World) (destPath : string) (size : Z) (expectedDigest : string) : Prop :=
  exists data, files w !! destPath = Some data
             /\ Z.of_nat (length data) = size
             /\ digest_of data = expectedDigest.

(** The events of one retry cycle on [dest]: blob requests, sleeps, and
bytes written; never a deletion or a truncation by [os.Truncate]. *)
Definition attempt_event (dest : string) (e : Event) : Prop :=
  match e with
  | EvGet BlobClient _ | EvSleep _ => True
  | EvCreate p | EvAppend p _ => p = dest
  | _ => False
  end.

(** The requests sent with the blob client, oldest first. *)
Definition blob_gets (evs : list Event) : list Request :=
  omap (fun e => match e with EvGet BlobClient r => Some r | _ => None end) evs.

Definition sleeps (evs : list Event) : list Z :=
  omap (fun e => match e with EvSleep s => Some s | _ => None end) evs.

(** From [w] to [w'] one retry cycle (or a part of it) has run on [dest]. *)
Definition cycle_rel (dest : string) (w w' : World) : Prop :=
  exists evs,
  trace w' = trace w ++ evs
  /\ Forall (attempt_event dest) evs
  /\ (forall p, is_Some (files w !! p) -> is_Some (files w' !! p))
  /\ ((exists d, EvAppend dest d ∈ evs) -> is_Some (files w' !! dest)).

(** The events of the token handshake. *)
Definition auth_event (e : Event) : Prop :=
  match e with EvGet AuthClient _ => True | _ => False end.

(** The world in which a retry cycle of the fetch loop starts: an
  oversized file has been truncated. *)
Definition cycle_start (destPath : string) (size : Z) (w : World) : World * error :=
  if decide (0 < size /\ size < getFileSize w destPath) then os_Truncate0 destPath w
  else (w, err_nil).

(** What the fetch loop may append to the trace. *)
Definition fetch_event (dest : string) (e : Event) : Prop :=
  match e with
  | EvGet BlobClient _ | EvSleep _ | EvCycle _ => True
  | EvCreate p | EvAppend p _ | EvRemove p | EvTruncate p => p = dest
  | _ => False
  end.


(** When the fetch loop gives up, the last thing it ran is a retry cycle,
  and that cycle removed nothing: a file that held bytes at its start, or
  that it wrote to, still exists (a 200 answer may have emptied it). *)
Definition left_in_place (dest : string) (w' : World) : Prop :=
  exists pre n cyc,
    trace w' = pre ++ EvCycle n :: cyc
    /\ Forall (attempt_event dest) cyc
    /\ ((0 < n \/ exists d, EvAppend dest d ∈ cyc) -> is_Some (files w' !! dest)).

(** The part of [downloadLayerWithRetry] after the check of an existing file. *)
Definition authThenFetch (registry : nat -> Request -> option Response)
    (json_DecodeToken : list byte -> bool -> option string)
    (layerURL destPath : string) (size : Z) (expectedDigest : string)
    (fuel : nat) (ref : Reference) (w : World) : World * Outcome error :=
  let '(w1, (tok, err)) := authToken registry json_DecodeToken ref w in
  if is_nil err then fetchLoop registry layerURL destPath size expectedDigest tok fuel w1
  else (w1, Returned (WrapError ErrCodeAuthError "认证失败" err)).

(** ** Bearer challenges, as the specification words them: comma-separated
    pairs of a key and a quoted value after a Bearer prefix. *)

Fixpoint occurs (c : ascii) (s : string) : Prop :=
  match s with
  | EmptyString => False
  | String a s' => a = c \/ occurs c s'
  end.

Definition quoted (v : string) : string := String dquote (v +:+ String dquote EmptyString).

Definition challenge_param (kv : string * string) : string :=
  fst kv +:+ "=" +:+ quoted (snd kv).

Definition bearer_challenge (kvs : list (string * string)) : string :=
  "Bearer " +:+ GoStrings.Join (map challenge_param kvs) ",".

(** A key without equals sign and comma, a value without comma and quote. *)
Definition plain_param (kv : string * string) : Prop :=
  ~ occurs "=" (fst kv) /\ ~ occurs "," (fst kv)
  /\ ~ occurs "," (snd kv) /\ ~ occurs dquote (snd kv).

(** The fields in the order the challenge lists them, later ones winning. *)
Definition challenge_fields (kvs : list (string * string)) : gmap string string :=
  fold_left (fun m kv => <[fst kv := snd kv]> m) kvs ∅.

(** The probe of the token handshake. *)
Definition probe_request (imageRef : Reference) : Request :=
  {| URL := "https://" +:+ RegistryStr imageRef +:+ "/v2/";
     Authorization := None; Range := None |}.

Definition get_request (url : string) : Request :=
  {| URL := url; Authorization := None; Range := None |}.

(** ** Vocabulary of the layer plan *)

(** The digests [downloadLayerWithRetry] was called for, in call order. *)
Definition fetched (evs : list Event) : list string :=
  omap (fun e => match e with EvFetchLayer _ _ _ d => Some d | _ => None end) evs.

Definition not_fetch_mark (e : Event) : Prop :=
  match e with EvFetchLayer _ _ _ _ => False | _ => True end.

(** The digest string of a layer, as the manifest builder reads it. *)
Definition layer_digest (layer : Layer) : string := Hash_String (fst (layer_Digest layer)).

(** The to-download subset in the words of the specification: the layers
    whose digest is not among the digests known on the target host. *)
Definition toDownload_spec (layers : list Layer) (known : list string) : list Layer :=
  List.filter (fun layer => negb (bool_decide (Hex (fst (layer_Digest layer)) ∈ known))) layers.

(** ** Vocabulary of the archive assembler *)

(** The file names a manifest entry refers to: its configuration and its
    layers, as [assembleImageTar] reads them after [json.Unmarshal]. *)
Definition string_refs (vs : list Value) : list string :=
  omap (fun v => match v with VString s => Some s | _ => None end) vs.

Definition layer_refs (m : gmap string Value) : list string :=
  match m !! "Layers" with
  | Some (VSlice layers) => string_refs layers
  | _ => []
  end.

Definition config_refs (m : gmap string Value) : list string :=
  match m !! "Config" with
  | Some (VString config) => [config]
  | _ => []
  end.

Definition image_refs (m : gmap string Value) : list string := config_refs m ++ layer_refs m.

(** The archive entry [addFileToTar] writes for a file. *)
Definition tar_entry (w : World) (filePath nameInTar : string) : TarHeader * list byte :=
  let data := default [] (files w !! filePath) in
  ({| Name := nameInTar; Mode := 420; Size := Z.of_nat (length data) |}, data).

(** From [w] to [w'] the entries were appended to the archive [tw], and no
    file was touched. *)
Definition wrote (tw : string) (entries : list (TarHeader * list byte)) (w w' : World) : Prop :=
  files w' = files w
  /\ forall old, tars w !! tw = Some old -> tars w' !! tw = Some (old ++ entries).

(** A name the manifest refers to is present, or missing, in the output
    directory. *)
Definition present (filepath_Join : string -> string -> string) (outputDir : string)
    (w : World) (name : string) : Prop :=
  is_Some (files w !! filepath_Join outputDir name).

Definition missing (filepath_Join : string -> string -> string) (outputDir : string)
    (w : World) (name : string) : Prop :=
  files w !! filepath_Join outputDir name = None.

Definition entries_of (filepath_Join : string -> string -> string) (outputDir : string)
    (w : World) (names : list string) : list (TarHeader * list byte) :=
  map (fun name => tar_entry w (filepath_Join outputDir name) name) names.

(** The entry of the repositories file, when there is one. *)
Definition repositories_entry (filepath_Join : string -> string -> string) (outputDir : string)
    (w : World) : list (TarHeader * list byte) :=
  match files w !! filepath_Join outputDir "repositories" with
  | Some _ => [tar_entry w (filepath_Join outputDir "repositories") "repositories"]
  | None => []
  end.

(** ** The superseded prototypes of the repository

    The first prototype of [streamImageLayers] filtered the layers by the
    digests known on the host and built the manifest from what was left;
    the cache prototype's [writeMetadata] cut the reference at the first
    colon and fell back to the tag "latest". *)

Module Prototype.

Definition filterLayers (layers : list Layer) (existLayers : list string) : list Layer :=
  List.filter (fun l => negb (bool_decide (Hex (fst (layer_Digest l)) ∈ existLayers))) layers.

(** The manifest layer list of the first prototype, for layers whose digest
    can be read. *)
Definition manifestLayers (layers : list Layer) (existLayers : list string) : list string :=
  map (fun l => Hash_String (fst (layer_Digest l)) +:+ "/layer.tar")
      (filterLayers layers existLayers).

Definition writeMetadata_repositories (configDigest imageRef : string)
  : gmap string (gmap string string) :=
  let '(repoName, tag, _) := GoStrings.Cut imageRef ":" in
  let tag := if decide (tag = "") then "latest" else tag in
  {[ repoName := {[ tag := configDigest ]} ]}.

End Prototype.

(** * Concrete runs, for the examples below *)

Definition world_of (fs : list (string * list byte)) : World :=
  {| files := list_to_map fs; tars := ∅; trace := [] |}.

(** A registry that answers the requests of a run from a script, in order,
    and fails every request after the script has ended. *)
Definition script (answers : list (option Response)) : nat -> Request -> option Response :=
  fun n _ => default None (answers !! n).

Definition answer (status : Z) (body : list byte) : option Response :=
  Some {| StatusCode := status; WwwAuthenticate := ""; Body := body; BodyErr := false |}.

(** The same, but the body breaks off with a read error after [body]. *)
Definition broken_answer (status : Z) (body : list byte) : option Response :=
  Some {| StatusCode := status; WwwAuthenticate := ""; Body := body; BodyErr := true |}.

Definition no_token : list byte -> bool -> option string := fun _ _ => None.

Definition ref_app : Reference :=
  {| RegistryStr := "registry.example"; RepositoryStr := "library/app" |}.

Definition blob_abc : list byte := bytes_of "abc".
Definition digest_abc : string := Eval vm_compute in digest_of blob_abc.
Definition url_abc : string :=
  "https://registry.example/v2/library/app/blobs/" +:+ digest_abc.
Definition dest_abc : string := "output/" +:+ digest_abc +:+ ".tar".

(** Fetching the blob "abc" into [dest_abc] from the world [w]. *)
Definition fetch_abc (answers : list (option Response)) (fuel : nat) (expectedDigest : string)
    (w : World) : World * Outcome error :=
  downloadLayerWithRetry (script answers) no_token fuel ref_app url_abc dest_abc 3
    expectedDigest w.

(** A token handshake: the probe is answered 401 with a challenge naming
    realm and service only, the realm answers with a JSON document holding
    the token. *)
Definition challenge_app : string :=
  bearer_challenge [("realm", "https://auth.example/token"); ("service", "registry.example")].

Definition token_document : list byte :=
  bytes_of ("{" +:+ quoted "token" +:+ ":" +:+ quoted "t0k3n" +:+ "}").

Definition handshake_registry : nat -> Request -> option Response :=
  script [ Some {| StatusCode := 401; WwwAuthenticate := challenge_app;
                   Body := []; BodyErr := false |};
           answer 200 token_document ].

(** A decoder that knows this one document. *)
Definition decode_token_document (body : list byte) (broken : bool) : option string :=
  if decide (String.string_of_list_byte body = String.string_of_list_byte token_document
             /\ broken = false)
  then Some "t0k3n" else None.

(** An image of two layers, the blobs "abc" and "xyz", exported under the
    reference [registry.example/library/app:v1]. *)
Definition blob_xyz : list byte := bytes_of "xyz".
Definition digest_xyz : string := Eval vm_compute in digest_of blob_xyz.
Definition dest_xyz : string := "output/" +:+ digest_xyz +:+ ".tar".

Definition hash_of (data : list byte) : Hash :=
  {| Algorithm := "sha256"; Hex := hex.EncodeToString (sha256.Sum data) |}.

Definition layer_of (data : list byte) : Layer :=
  {| layer_Digest := (hash_of data, err_nil);
     layer_Size := (Z.of_nat (length data), err_nil);
     layer_UncompressedSize := (Z.of_nat (length data), err_nil) |}.

Definition config_app : list byte := bytes_of "{}".

Definition image_app : Image (list byte) :=
  {| img_ConfigFile := (config_app, err_nil);
     img_Layers := ([layer_of blob_abc; layer_of blob_xyz], err_nil);
     img_ConfigName := (hash_of config_app, err_nil) |}.

Definition name_app : string := "registry.example/library/app:v1".

(** A reference parser that knows this one reference. *)
Definition parse_app (s : string) : Reference * error :=
  if decide (s = name_app) then (ref_app, err_nil)
  else ({| RegistryStr := ""; RepositoryStr := "" |}, LibError "could not parse reference").

Definition options_app : option StreamOptions :=
  Some {| Platform := "linux/amd64"; Compression := true; UseCompressedLayers := true |}.

(** Printers for the maps the program builds, standing in for [json.Marshal]. *)
Definition print_strings (l : list string) : string :=
  "[" +:+ GoStrings.Join (map quoted l) "," +:+ "]".

Definition print_value (v : Value) : string :=
  match v with
  | VString s => quoted s
  | VStrings l => print_strings l
  | _ => "null"
  end.

Definition print_fields (fields : list (string * string)) : string :=
  "{" +:+ GoStrings.Join (map (fun kv => quoted (fst kv) +:+ ":" +:+ snd kv) fields) "," +:+ "}".

Definition marshal_manifest (ms : list (gmap string Value)) : list byte * error :=
  (bytes_of
     ("[" +:+ GoStrings.Join
                (map (fun m : gmap string Value =>
                        print_fields
                          (omap (fun k => (fun v => (k, print_value v)) <$> m !! k)
                                ["Config"; "Layers"; "RepoTags"]))
                     ms) ","
      +:+ "]"),
   err_nil).

Definition marshal_repositories (r : gmap string (gmap string string)) : list byte * error :=
  (bytes_of
     (print_fields
        (map (fun kv : string * gmap string string =>
                (fst kv, print_fields (map (fun tv : string * string => (fst tv, quoted (snd tv)))
                                           (map_to_list (snd kv)))))
             (map_to_list r))),
   err_nil).

(** Exporting [image_app] into "output" from the world [w]. *)
Definition export_app (answers : list (option Response)) (existLayers : list string)
    (w : World) : World * Outcome error :=
  streamImageLayers (script answers) no_token (list byte) (fun c => (c, err_nil))
    marshal_manifest marshal_repositories parse_app 4 image_app existLayers "output"
    options_app name_app w.

(** The manifest of [image_app] as [json.Unmarshal] hands it back: the
    lists have become slices of dynamic values. *)
Definition manifest_app : gmap string Value :=
  {[ "Config" := VString (Hash_String (hash_of config_app) +:+ ".json");
     "RepoTags" := VSlice [VString name_app];
     "Layers" := VSlice [VString (digest_abc +:+ ".tar"); VString (digest_xyz +:+ ".tar")] ]}.

(** A decoder that knows the manifest.json of this export. *)
Definition unmarshal_app (data : list byte) : list (gmap string Value) * error :=
  if decide (String.string_of_list_byte data
             = String.string_of_list_byte
                 (fst (marshal_manifest
                         [singleManifest (hash_of config_app) name_app [digest_abc; digest_xyz]])))
  then ([manifest_app], err_nil)
  else ([], LibError "invalid character").

Definition join_app (dir name : string) : string := dir +:+ "/" +:+ name.

(** The output directory after the export of [image_app], and the same
    directory without the file of the layer "xyz". *)
Definition exported_app : World :=
  fst (export_app [answer 200 []; answer 200 blob_abc; answer 200 []; answer 200 blob_xyz]
         [] (world_of [])).

Definition exported_without_xyz : World := with_files (delete dest_xyz) exported_app.

Definition assemble_app (w : World) : World * error :=
  assembleImageTar unmarshal_app join_app "output" "output.tar" w.

(** * Proof automation *)

(** Closed goals about a concrete run are settled by evaluation, one
    conjunct at a time. *)
Ltac by_evaluation :=
  intros; repeat match goal with |- _ /\ _ => split end; vm_compute; reflexivity.
(** ** Vocabulary: what a call of the fetcher may touch *)

(** From [w] to [w'] no file but the one at [dest] has changed, and no
    archive. *)
Definition only_touches (dest : string) (w w' : World) : Prop :=
  (forall p, p <> dest -> files w' !! p = files w !! p) /\ tars w' = tars w.

(** [steps P dest w w']: events in [P] were appended, and only [dest] was
    touched. *)
Definition steps (P : Event -> Prop) (dest : string) (w w' : World) : Prop :=
  grows P w w' /\ only_touches dest w w'.

(** The [Authorization] header the retry loop sets for a token. *)
Definition bearer (token : string) : option string :=
  if decide (token <> "") then Some ("Bearer " +:+ token) else None.

(** What the fetch loop does with a given token: blob requests to
    [layerURL] that carry the token, sleeps, and changes of [dest]. *)
Definition download_event (layerURL token dest : string) (e : Event) : Prop :=
  match e with
  | EvGet BlobClient req => URL req = layerURL /\ Authorization req = bearer token
  | EvSleep _ | EvCycle _ => True
  | EvCreate p | EvAppend p _ | EvRemove p | EvTruncate p => p = dest
  | _ => False
  end.

(** Any event at all. *)
Definition any_event (e : Event) : Prop := True.

(** A registry that answers every request with 200 and a complete body. *)
Definition always_ok (registry : nat -> Request -> option Response) : Prop :=
  forall n req, exists resp,
    registry n req = Some resp /\ StatusCode resp = 200 /\ BodyErr resp = false.

(** A registry that asks for a token, hands one out and then serves the
    blob "abc". *)
Definition token_registry : nat -> Request -> option Response :=
  script [ Some {| StatusCode := 401; WwwAuthenticate := challenge_app;
                   Body := []; BodyErr := false |};
           answer 200 token_document;
           answer 200 blob_abc ].

(** A registry that serves the blob "abc" to every request. *)
Definition generous_registry : nat -> Request -> option Response :=
  fun _ _ => answer 200 blob_abc.

(** ** The end of a run ([main.go]) *)




(** The paths written with [os.WriteFile], oldest first. *)
Definition written (evs : list Event) : list string :=
  omap (fun e => match e with EvWriteFile p => Some p | _ => None end) evs.

(** What a call of the fetcher appends to the trace: the token handshake
    and the events of the fetch loop. *)
Definition fetcher_event (dest : string) (e : Event) : Prop :=
  auth_event e \/ fetch_event dest e.

(** ** Choosing the image of a platform ([main.go]) *)

(** What a Go call gives back: a value, or a run-time panic. *)
Inductive Result (A : Type) :=
  | Done (a : A)
  | Panic (reason : string).
Arguments Done {A} a.
Arguments Panic {A} reason.

(** A [v1.Platform], as far as the program looks at it. *)
Record v1_Platform := { OS : string; Architecture : string; Variant : string }.

(** A [v1.Descriptor] of an index manifest; [Platform] is a pointer and
    may be nil. *)
Record Descriptor := { desc_Digest : Hash; desc_Platform : option v1_Platform }.

Section Platforms.

Variable ConfigFile : Type.

(** A [v1.ImageIndex]: what [IndexManifest()] and [Image(digest)] return. *)
Record ImageIndex := {
      idx_Manifests : list Descriptor * error;
      idx_Image : Hash -> Image ConfigFile * error
}.

(** A [remote.Descriptor]. *)
Record RemoteDescriptor := {
      MediaType : string;
      rd_ImageIndex : ImageIndex * error;
      rd_Image : Image ConfigFile * error
}.

(** The test of the selection loop on a manifest that has a platform:
    with a platform asked for, its first two or three parts must be the
    manifest's OS, architecture and variant; with none, linux/amd64 is
    taken, whatever the variant. *)
Definition platform_selected (platform : string) (p : v1_Platform) : bool :=
  if decide (platform <> "") then
    match GoStrings.Split platform "/" with
    | targetOS :: targetArch :: more =>
        let targetVariant := match more with v :: _ => v | [] => "" end in
        bool_decide (OS p = targetOS /\ Architecture p = targetArch
                     /\ Variant p = targetVariant)
    | _ => false
    end
  else bool_decide (OS p = "linux" /\ Architecture p = "amd64").

(** The selection loop of [selectPlatformImage]; [options] is a pointer
    that the loop dereferences when it meets a manifest with a platform. *)
Fixpoint selectLoop (options : option StreamOptions) (manifests : list Descriptor)
  : Result (option Descriptor) :=
  match manifests with
  | [] => Done None
  | m :: rest =>
      match desc_Platform m with
      | None => selectLoop options rest
      | Some p =>
          match options with
          | None => Panic "nil pointer dereference"
          | Some o =>
              if platform_selected (Platform o) p then Done (Some m)
              else selectLoop options rest
          end
      end
  end.

(** selectPlatformImage: the image, or the error, the function returns. *)
Definition selectPlatformImage (desc : RemoteDescriptor) (options : option StreamOptions)
  : Result (Image ConfigFile + error) :=
  let '(index, err) := rd_ImageIndex desc in
  if is_nil err then
    let '(manifests, err) := idx_Manifests index in
    if is_nil err then
      match selectLoop options manifests with
      | Panic reason => Panic reason
      | Done selectedDesc =>
          let selectedDesc :=
            match selectedDesc with
            | None => head manifests
            | Some m => Some m
            end in
          match selectedDesc with
          | None => Done (inr (WrapError ErrCodeImageParse "未找到合适的平台镜像" err_nil))
          | Some m =>
              match desc_Platform m with
              | None => Panic "nil pointer dereference"   (* selectedDesc.Platform.OS *)
              | Some _ =>
                  let '(img, err) := idx_Image index (desc_Digest m) in
                  if is_nil err then Done (inl img)
                  else Done (inr (WrapError ErrCodeImageParse "获取选中镜像失败" err))
              end
          end
      end
    else Done (inr (WrapError ErrCodeImageParse "获取索引清单失败" err))
  else Done (inr (WrapError ErrCodeImageParse "获取镜像索引失败" err)).

End Platforms.

Arguments idx_Manifests {ConfigFile} _.
Arguments idx_Image {ConfigFile} _ _.
Arguments MediaType {ConfigFile} _.
Arguments rd_ImageIndex {ConfigFile} _.
Arguments rd_Image {ConfigFile} _.
Arguments selectPlatformImage {ConfigFile} _ _.

(** The media types of an image index
    ([types.OCIImageIndex], [types.DockerManifestList]). *)
Definition OCIImageIndex : string := "application/vnd.oci.image.index.v1+json".
Definition DockerManifestList : string :=
  "application/vnd.docker.distribution.manifest.list.v2+json".

(** The first manifest the loop selects: the first one that has a platform
    and passes the test. *)
Definition first_selected (platform : string) (manifests : list Descriptor)
  : option Descriptor :=
  List.find (fun m => match desc_Platform m with
                      | Some p => platform_selected platform p
                      | None => false
                      end) manifests.

(** [index.Image(m.Digest)], as [selectPlatformImage] hands it on. *)
Definition image_of {ConfigFile : Type} (index : ImageIndex ConfigFile) (m : Descriptor)
  : Result (Image ConfigFile + error) :=
  let '(img, err) := idx_Image index (desc_Digest m) in
  if is_nil err then Done (inl img)
  else Done (inr (WrapError ErrCodeImageParse "获取选中镜像失败" err)).

(** A manifest the selection loop passes over. *)
Definition passed_over (platform : string) (m : Descriptor) : Prop :=
  match desc_Platform m with
  | Some p => platform_selected platform p = false
  | None => True
  end.

(** An index of two manifests, linux/amd64 and linux/arm64/v8, and the
    images behind them. *)
Definition amd64_manifest : Descriptor :=
  {| desc_Digest := hash_of (bytes_of "amd64");
     desc_Platform := Some {| OS := "linux"; Architecture := "amd64"; Variant := "" |} |}.

Definition arm64_manifest : Descriptor :=
  {| desc_Digest := hash_of (bytes_of "arm64");
     desc_Platform := Some {| OS := "linux"; Architecture := "arm64"; Variant := "v8" |} |}.

Definition index_app : ImageIndex (list byte) :=
  {| idx_Manifests := ([amd64_manifest; arm64_manifest], err_nil);
     idx_Image := fun h => (image_app, err_nil) |}.

Definition descriptor_app : RemoteDescriptor (list byte) :=
  {| MediaType := OCIImageIndex;
     rd_ImageIndex := (index_app, err_nil);
     rd_Image := (image_app, LibError "not an image") |}.

Definition options_for (platform : string) : option StreamOptions :=
  Some {| Platform := platform; Compression := true; UseCompressedLayers := true |}.

(** ** Log levels and the logger ([logger.go], [config.go]) *)

(** [LogLevel] is an [int]; the five named levels. *)
Definition DEBUG : Z := 0.
Definition INFO : Z := 1.
Definition WARN : Z := 2.
Definition ERROR : Z := 3.
Definition FATAL : Z := 4.

(** [LogLevel.String()] *)
Definition LogLevel_String (l : Z) : string :=
  if decide (l = DEBUG) then "DEBUG"
  else if decide (l = INFO) then "INFO"
  else if decide (l = WARN) then "WARN"
  else if decide (l = ERROR) then "ERROR"
  else if decide (l = FATAL) then "FATAL"
  else "UNKNOWN".

(** The bytes of a string below [utf8.RuneSelf], and the upper case of an
    ASCII letter. *)
Definition is_ascii (c : ascii) : bool := bool_decide (nat_of_ascii c < 128)%nat.

Definition upper_ascii (c : ascii) : ascii :=
  let n := nat_of_ascii c in
  if decide (97 <= n <= 122)%nat then ascii_of_nat (n - 32) else c.

Fixpoint all_ascii (s : string) : bool :=
  match s with
  | EmptyString => true
  | String c s' => is_ascii c && all_ascii s'
  end.

Fixpoint map_upper (s : string) : string :=
  match s with
  | EmptyString => EmptyString
  | String c s' => String (upper_ascii c) (map_upper s')
  end.

Section LogLevels.

(** [strings.Map(unicode.ToUpper, s)], which [strings.ToUpper] falls back
    to when [s] is not pure ASCII. *)
Variable unicode_ToUpper : string -> string.

(** [strings.ToUpper] *)
Definition strings_ToUpper (s : string) : string :=
  if all_ascii s then map_upper s else unicode_ToUpper s.

(** ParseLogLevel: the level of a name, INFO for a name it does not know. *)
Definition ParseLogLevel (level : string) : Z :=
  let name := strings_ToUpper level in
  if decide (name = "DEBUG") then DEBUG
  else if decide (name = "INFO") then INFO
  else if decide (name = "WARN" \/ name = "WARNING") then WARN
  else if decide (name = "ERROR") then ERROR
  else if decide (name = "FATAL") then FATAL
  else INFO.

End LogLevels.

(** What has been printed: the level and the formatted message of each
    line; the time and the caller that [formatMessage] puts around them
    are added by [formatMessage] below. *)
Record LogLine := { line_level : Z; line_message : string }.

(** The logger: [globalLogger] (nil, or a logger with its level), the lines
    printed so far, and whether [os.Exit] has been called. *)
Record LogState := {
    globalLogger : option Z;
    printed : list LogLine;
    exited : option Z
}.

(** InitLogger *)
Definition InitLogger (level : Z) (st : LogState) : LogState :=
  {| globalLogger := Some level; printed := printed st; exited := exited st |}.

(** SetLogLevel: nothing happens while there is no logger. *)
Definition SetLogLevel (level : Z) (st : LogState) : LogState :=
  match globalLogger st with
  | Some _ => {| globalLogger := Some level; printed := printed st; exited := exited st |}
  | None => st
  end.

(** GetLogger: the logger is created at level INFO when there is none. *)
Definition GetLogger (st : LogState) : LogState * Z :=
  match globalLogger st with
  | Some level => (st, level)
  | None => (InitLogger INFO st, INFO)
  end.

(** shouldLog *)
Definition shouldLog (loggerLevel level : Z) : bool := bool_decide (loggerLevel <= level).

Definition println (level : Z) (msg : string) (st : LogState) : LogState :=
  {| globalLogger := globalLogger st;
     printed := printed st ++ [{| line_level := level; line_message := msg |}];
     exited := exited st |}.

(** [Logger.Debug], [Info], [Warn] and [Error], which differ in the level only. *)
Definition log_at (level : Z) (msg : string) (st : LogState) : LogState :=
  let '(st, loggerLevel) := GetLogger st in
  if shouldLog loggerLevel level then println level msg st else st.

Definition LogDebug : string -> LogState -> LogState := log_at DEBUG.
Definition LogInfo : string -> LogState -> LogState := log_at INFO.
Definition LogWarn : string -> LogState -> LogState := log_at WARN.
Definition LogError : string -> LogState -> LogState := log_at ERROR.

(** LogFatal: printed whatever the level, then [os.Exit(1)]. *)
Definition LogFatal (msg : string) (st : LogState) : LogState :=
  let '(st, _) := GetLogger st in
  let st := println FATAL msg st in
  {| globalLogger := globalLogger st; printed := printed st; exited := Some 1 |}.

(** formatMessage, given the formatted time and what [runtime.Caller(3)]
    returned (file and line, or nothing). *)
Definition formatMessage (now : string) (caller : option (string * Z)) (level : Z)
    (msg : string) : string :=
  let callerText :=
    match caller with
    | Some (file, line) =>
        let parts := GoStrings.Split file "/" in
        let filename := List.last parts EmptyString in
        filename +:+ ":" +:+ fmt_d line
    | None => "unknown"
    end in
  "[" +:+ now +:+ "] " +:+ LogLevel_String level +:+ " [" +:+ callerText +:+ "] " +:+ msg.

(** A logger that has not been used yet. *)
Definition no_logger : LogState := {| globalLogger := None; printed := []; exited := None |}.

(** ** The configuration ([config.go]) *)

Record SSHSettings := {
    Host : string;
    Port : Z;
    Username : string;
    Password : string;
    KeyFile : string
}.

Record DownloadSettings := {
    MaxRetries : Z;
    RetryDelay : Z;                 (* a [time.Duration]: nanoseconds, 64 bits *)
    OutputDir : string;
    Concurrency : Z;
    DefaultImage : string;
    DefaultOutput : string
}.

Record LoggingSettings := { Level : string; Format : string }.

Record Config := {
    SSH : SSHSettings;
    Download : DownloadSettings;
    Logging : LoggingSettings
}.

(** [time.Second], in nanoseconds. *)
Definition time_Second : Z := 1000000000.

(** The value a 64-bit signed integer takes after an operation whose
    mathematical result is [x]. *)
Definition wrap64 (x : Z) : Z := (x + 2 ^ 63) mod 2 ^ 64 - 2 ^ 63.

(** DefaultConfig *)
Definition DefaultConfig : Config :=
  {| SSH := {| Host := "192.168.44.213"; Port := 22; Username := "root";
               Password := "Unitech@1998"; KeyFile := "" |};
     Download := {| MaxRetries := 5; RetryDelay := wrap64 (2 * time_Second);
                    OutputDir := "output"; Concurrency := 1;
                    DefaultImage :=
                      "docker.utpf.cn/platform/edgeai-videostreamserver:V1.00.02.03_Omnisky";
                    DefaultOutput := "output.tar" |};
     Logging := {| Level := "INFO"; Format := "text" |} |}.

(** [strconv.Atoi] on a 64-bit platform: an optional sign and decimal
    digits, of a value that fits an [int]; [None] for the error. *)
Definition digit_value (c : ascii) : option Z :=
  let n := Z.of_nat (nat_of_ascii c) in
  if decide (48 <= n <= 57) then Some (n - 48) else None.

Fixpoint digits_value (acc : Z) (s : string) : option Z :=
  match s with
  | EmptyString => Some acc
  | String c s' =>
      match digit_value c with
      | Some v => digits_value (acc * 10 + v) s'
      | None => None
      end
  end.

Definition strconv_Atoi (s : string) : option Z :=
  match s with
  | EmptyString => None
  | String c rest =>
      let negative := bool_decide (c = "-"%char) in
      let body := if decide (c = "-"%char \/ c = "+"%char) then rest else s in
      match body with
      | EmptyString => None
      | _ =>
          match digits_value 0 body with
          | Some n =>
              let v := if negative then - n else n in
              if decide (- 2 ^ 63 <= v <= 2 ^ 63 - 1) then Some v else None
          | None => None
          end
      end
  end.

(** [os.Getenv] on an environment. *)
Definition os_Getenv (env : gmap string string) (key : string) : string :=
  default "" (env !! key).

(** The pattern [if v := os.Getenv(key); v != "" { field = v }] and its
    variant with [strconv.Atoi], whose error is passed over in silence. *)
Definition env_string (env : gmap string string) (key : string) (old : string) : string :=
  let v := os_Getenv env key in
  if decide (v <> "") then v else old.

Definition env_int (env : gmap string string) (key : string) (old : Z) : Z :=
  let v := os_Getenv env key in
  if decide (v <> "") then
    match strconv_Atoi v with
    | Some n => n
    | None => old
    end
  else old.

(** overrideFromEnv *)
Definition overrideFromEnv (env : gmap string string) (cfg : Config) : Config :=
  {| SSH := {| Host := env_string env "SSH_HOST" (Host (SSH cfg));
               Port := env_int env "SSH_PORT" (Port (SSH cfg));
               Username := env_string env "SSH_USERNAME" (Username (SSH cfg));
               Password := env_string env "SSH_PASSWORD" (Password (SSH cfg));
               KeyFile := env_string env "SSH_KEY_FILE" (KeyFile (SSH cfg)) |};
     Download :=
       {| MaxRetries := env_int env "DOWNLOAD_MAX_RETRIES" (MaxRetries (Download cfg));
          RetryDelay :=
            (let v := os_Getenv env "DOWNLOAD_RETRY_DELAY" in
             if decide (v <> "") then
               match strconv_Atoi v with
               | Some delay => wrap64 (delay * time_Second)
               | None => RetryDelay (Download cfg)
               end
             else RetryDelay (Download cfg));
          OutputDir := env_string env "OUTPUT_DIR" (OutputDir (Download cfg));
          Concurrency := env_int env "DOWNLOAD_CONCURRENCY" (Concurrency (Download cfg));
          DefaultImage := env_string env "DEFAULT_IMAGE" (DefaultImage (Download cfg));
          DefaultOutput := env_string env "DEFAULT_OUTPUT" (DefaultOutput (Download cfg)) |};
     Logging := Logging cfg |}.

(** What [os.Stat] finds at a path. *)
Inductive StatResult :=
  | StatFound                (* err == nil *)
  | StatNotExist             (* os.IsNotExist(err) *)
  | StatFailed.              (* another error *)

(** [os.IsNotExist(err)] and [err == nil] for the error of [os.Stat]. *)
Definition os_IsNotExist (r : StatResult) : bool :=
  match r with StatNotExist => true | _ => false end.

Definition stat_succeeded (r : StatResult) : bool :=
  match r with StatFound => true | _ => false end.

Section Configuration.

(** The disk the configuration functions see, and the calls they make on
    it: [os.Stat], [os.MkdirAll], and [os.Open] followed by reading the
    file to its end ([None]: the file cannot be opened). *)
Variable Disk : Type.
Variable os_Stat : Disk -> string -> StatResult.
Variable os_MkdirAll : string -> Disk -> Disk * error.
Variable os_Open : Disk -> string -> option (list byte).

(** [json.NewDecoder(file).Decode(cfg)]: the configuration after the
    document has been decoded into it, and the error. *)
Variable json_DecodeConfig : list byte -> Config -> Config * error.

(** [time.Duration.String()], for an error text. *)
Variable Duration_String : Z -> string.

(** validateConfig *)
Definition validateConfig (cfg : Config) (disk : Disk) : Disk * error :=
  if decide (Host (SSH cfg) = "") then
    (disk, WrapError ErrCodeConfigError "SSH主机不能为空" err_nil)
  else if decide (Port (SSH cfg) <= 0 \/ 65535 < Port (SSH cfg)) then
    (disk, WrapError ErrCodeConfigError ("SSH端口无效: " +:+ fmt_d (Port (SSH cfg))) err_nil)
  else if decide (Username (SSH cfg) = "") then
    (disk, WrapError ErrCodeConfigError "SSH用户名不能为空" err_nil)
  else if decide (Password (SSH cfg) = "" /\ KeyFile (SSH cfg) = "") then
    (disk, WrapError ErrCodeConfigError "SSH密码和密钥文件不能同时为空" err_nil)
  else if decide (KeyFile (SSH cfg) <> ""
                  /\ os_IsNotExist (os_Stat disk (KeyFile (SSH cfg))) = true) then
    (disk, WrapError ErrCodeConfigError ("SSH密钥文件不存在: " +:+ KeyFile (SSH cfg))
             (LibError "stat: no such file or directory"))
  else if decide (MaxRetries (Download cfg) < 0) then
    (disk, WrapError ErrCodeConfigError
             ("最大重试次数不能为负数: " +:+ fmt_d (MaxRetries (Download cfg))) err_nil)
  else if decide (RetryDelay (Download cfg) < 0) then
    (disk, WrapError ErrCodeConfigError
             ("重试延迟不能为负数: " +:+ Duration_String (RetryDelay (Download cfg))) err_nil)
  else if decide (Concurrency (Download cfg) <= 0) then
    (disk, WrapError ErrCodeConfigError
             ("并发数必须大于0: " +:+ fmt_d (Concurrency (Download cfg))) err_nil)
  else if decide (OutputDir (Download cfg) <> ""
                  /\ os_IsNotExist (os_Stat disk (OutputDir (Download cfg))) = true) then
    let '(disk, err) := os_MkdirAll (OutputDir (Download cfg)) disk in
    if is_nil err then (disk, err_nil)
    else (disk, WrapError ErrCodeFileOperation
                  ("无法创建输出目录 " +:+ OutputDir (Download cfg)) err)
  else (disk, err_nil).

(** LoadConfig: the defaults, then the file if there is one, then the
    environment; the result is validated.  The configuration is nil when
    an error is returned. *)
Definition LoadConfig (env : gmap string string) (configPath : string) (disk : Disk)
  : Disk * (option Config * error) :=
  let cfg := DefaultConfig in
  let fromFile : Config * error :=
    if decide (configPath <> "" /\ stat_succeeded (os_Stat disk configPath) = true) then
      match os_Open disk configPath with
      | None => (cfg, WrapError ErrCodeFileOperation "打开配置文件失败"
                        (LibError "open"))
      | Some data =>
          let '(cfg, err) := json_DecodeConfig data cfg in
          if is_nil err then (cfg, err_nil)
          else (cfg, WrapError ErrCodeConfigError "解析配置文件失败" err)
      end
    else (cfg, err_nil) in
  let '(cfg, err) := fromFile in
  if is_nil err then
    let cfg := overrideFromEnv env cfg in
    let '(disk, err) := validateConfig cfg disk in
    if is_nil err then (disk, (Some cfg, err_nil))
    else (disk, (None, err))
  else (disk, (None, err)).

End Configuration.

(** A configuration that passes the checks [validateConfig] makes on its
    fields. *)
Definition valid_fields (cfg : Config) : Prop :=
  Host (SSH cfg) <> ""
  /\ 1 <= Port (SSH cfg) <= 65535
  /\ Username (SSH cfg) <> ""
  /\ (Password (SSH cfg) <> "" \/ KeyFile (SSH cfg) <> "")
  /\ 0 <= MaxRetries (Download cfg)
  /\ 0 <= RetryDelay (Download cfg)
  /\ 1 <= Concurrency (Download cfg).

(** A disk for the examples: the paths that exist; directories can always
    be created, no file can be opened. *)
Definition stat_in (disk : list string) (path : string) : StatResult :=
  if bool_decide (path ∈ disk) then StatFound else StatNotExist.

Definition mkdir_in (path : string) (disk : list string) : list string * error :=
  (path :: disk, err_nil).

Definition load_app (env : gmap string string) (configPath : string) (disk : list string)
  : list string * (option Config * error) :=
  LoadConfig (list string) stat_in mkdir_in (fun _ _ => None)
    (fun _ cfg => (cfg, LibError "unexpected end of JSON input")) fmt_d env configPath disk.
(** * Properties *)

Set Default Proof Using "Type".

(** ** The digest function agrees with the standard test vectors *)

Example sha256_abc :
  hex.EncodeToString (sha256.Sum (bytes_of "abc"))
  = "ba7816bf8f01cfea414140de5dae2223b00361a396177a9cb410ff61f20015ad".
Proof. vm_compute. reflexivity. Qed.

Example sha256_empty :
  hex.EncodeToString (sha256.Sum [])
  = "e3b0c44298fc1c149afbf4c8996fb92427ae41e4649b934ca495991b7852b855".
Proof. vm_compute. reflexivity. Qed.


(** ** Small facts used throughout *)

Lemma is_nil_true (e : error) : is_nil e = true -> e = err_nil.
Proof. destruct e; simpl; congruence. Qed.

Lemma code_of_not_nil (e : error) (c : ErrorCode) : code_of e = Some c -> e <> err_nil.
Proof. intros H ->. discriminate. Qed.

Lemma string_app_inv_head (s a b : string) : s +:+ a = s +:+ b -> a = b.
Proof. induction s as [|c s IH]; simpl; intros H; [done | injection H; auto]. Qed.

Lemma getFileSize_Some (w : World) (p : string) (data : list byte) :
  files w !! p = Some data -> getFileSize w p = Z.of_nat (length data).
Proof. unfold getFileSize. by intros ->. Qed.


Lemma getFileSize_pos_exists (w : World) (p : string) :
  0 < getFileSize w p -> exists data, files w !! p = Some data.
Proof. unfold getFileSize. destruct (files w !! p); [eauto | lia]. Qed.

Lemma events_since_app (w w' : World) (evs : list Event) :
  trace w' = trace w ++ evs -> events_since w w' = evs.
Proof. unfold events_since. intros ->. by rewrite drop_app_length. Qed.

Lemma grows_refl (P : Event -> Prop) (w : World) : grows P w w.
Proof. exists []. by rewrite app_nil_r. Qed.

Lemma grows_trans (P : Event -> Prop) (w1 w2 w3 : World) :
  grows P w1 w2 -> grows P w2 w3 -> grows P w1 w3.
Proof.
  intros (e1 & H1 & F1) (e2 & H2 & F2). exists (e1 ++ e2).
  rewrite H2, H1, app_assoc. split; [done | by apply Forall_app].
Qed.

Lemma grows_log (P : Event -> Prop) (e : Event) (w : World) : P e -> grows P w (log e w).
Proof. intros HP. exists [e]. split; [done | by constructor]. Qed.

Lemma grows_impl (P Q : Event -> Prop) (w w' : World) :
  (forall e, P e -> Q e) -> grows P w w' -> grows Q w w'.
Proof. intros HPQ (evs & H & F). exists evs. split; [done | by eapply Forall_impl]. Qed.

Lemma grows_step (P : Event -> Prop) (e : Event) (w w' : World) :
  trace w' = trace w ++ [e] -> P e -> grows P w w'.
Proof. intros H HP. exists [e]. split; [done | by constructor]. Qed.

(** ** The blob fetcher *)

Lemma cycle_rel_refl dest w : cycle_rel dest w w.
Proof.
  exists []. rewrite app_nil_r. repeat split; auto.
  intros [d Hd]. by apply elem_of_nil in Hd.
Qed.

Lemma cycle_rel_trans dest w1 w2 w3 :
  cycle_rel dest w1 w2 -> cycle_rel dest w2 w3 -> cycle_rel dest w1 w3.
Proof.
  intros (e1 & T1 & F1 & K1 & A1) (e2 & T2 & F2 & K2 & A2).
  exists (e1 ++ e2). rewrite T2, T1, app_assoc. repeat split; auto.
  - by apply Forall_app.
  - intros [d Hd]. apply elem_of_app in Hd as [Hd | Hd]; eauto.
Qed.

Lemma cycle_rel_log dest e w :
  attempt_event dest e -> (forall d, e <> EvAppend dest d) -> cycle_rel dest w (log e w).
Proof.
  intros He Hne. exists [e]. repeat split; auto.
  intros [d Hd]. apply list_elem_of_singleton in Hd. by destruct (Hne d).
Qed.

Lemma cycle_rel_create dest data w : cycle_rel dest w (create_file dest data w).
Proof.
  exists [EvCreate dest; EvAppend dest data]. unfold create_file, log, with_files; simpl.
  rewrite <- app_assoc. repeat split; auto.
  - repeat constructor.
  - intros p Hp. destruct (decide (dest = p)) as [-> | ?]; simplify_map_eq; eauto.
  - intros _. simplify_map_eq. eauto.
Qed.

Lemma cycle_rel_append dest data w w' :
  append_file dest data w = Some w' -> cycle_rel dest w w'.
Proof.
  unfold append_file. destruct (files w !! dest) as [old|] eqn:E; [|done].
  intros [= <-]. exists [EvAppend dest data]. unfold log, with_files; simpl.
  repeat split; auto.
  - repeat constructor.
  - intros p Hp. destruct (decide (dest = p)) as [-> | ?]; simplify_map_eq; eauto.
  - intros _. simplify_map_eq. eauto.
Qed.

Lemma cycle_rel_sleep dest s w : cycle_rel dest w (time_Sleep s w).
Proof. apply cycle_rel_log; [exact I | discriminate]. Qed.

Lemma requests_made_log (e : Event) (w : World) :
  requests_made (log e w) = if is_get e then S (requests_made w) else requests_made w.
Proof.
  unfold requests_made, log; simpl. rewrite List.filter_app, length_app. simpl.
  destruct (is_get e); simpl; lia.
Qed.

Lemma requests_made_remove (p : string) (w : World) :
  requests_made (fst (os_Remove p w)) = requests_made w.
Proof.
  unfold os_Remove. destruct (files w !! p); [| done].
  simpl. by rewrite requests_made_log.
Qed.

Section FetcherProperties.

Variable registry : nat -> Request -> option Response.
Variable json_DecodeToken : list byte -> bool -> option string.
Variables (layerURL destPath : string) (size : Z) (expectedDigest : string).

Lemma handleResponse_cycle resp retries lastErr w w' e b :
  handleResponse destPath resp retries lastErr w = (w', e, b) ->
  cycle_rel destPath w w'.
Proof.
  unfold handleResponse. intros H.
  repeat case_decide; repeat case_match; simplify_eq;
    eauto using cycle_rel_refl, cycle_rel_sleep, cycle_rel_create, cycle_rel_append,
                cycle_rel_trans.
Qed.

Lemma retryLoop_step token fuel retries lastErr w :
  retries < maxRetries ->
  retryLoop registry layerURL destPath token (S fuel) retries lastErr w =
    let currentSize := getFileSize w destPath in
    let retries' := if decide (0 < currentSize) then retries else retries + 1 in
    let w1 := log (EvGet BlobClient (blobRequest layerURL token currentSize)) w in
    match registry (requests_made w) (blobRequest layerURL token currentSize) with
    | None =>
        retryLoop registry layerURL destPath token fuel retries'
          (WrapError ErrCodeNetworkError "请求失败" (LibError "Do"))
          (time_Sleep ((retries' + 1) * 2) w1)
    | Some resp =>
        let '(w2, lastErr', chunkDownloaded) := handleResponse destPath resp retries' lastErr w1 in
        if chunkDownloaded then (w2, Returned (true, lastErr'))
        else retryLoop registry layerURL destPath token fuel retries' lastErr' w2
    end.
Proof.
  intros Hlt. simpl. rewrite decide_True by done. unfold http_Do.
  by destruct (registry _ _).
Qed.

Lemma retryLoop_done token fuel retries lastErr w :
  ~ retries < maxRetries ->
  retryLoop registry layerURL destPath token (S fuel) retries lastErr w
  = (w, Returned (false, lastErr)).
Proof. intros Hge. simpl. by rewrite decide_False. Qed.

Lemma retryLoop_cycle token fuel : forall retries lastErr w w' out,
  retryLoop registry layerURL destPath token fuel retries lastErr w = (w', out) ->
  cycle_rel destPath w w'.
Proof.
  induction fuel as [|fuel IH]; intros retries lastErr w w' out H.
  - simpl in H. simplify_eq. apply cycle_rel_refl.
  - destruct (decide (retries < maxRetries)) as [Hlt | Hge].
    + rewrite retryLoop_step in H by done. cbv zeta in H.
      set (cur := getFileSize w destPath) in *.
      eapply cycle_rel_trans;
        [apply (cycle_rel_log destPath (EvGet BlobClient (blobRequest layerURL token cur)));
           [exact I | discriminate] |].
      destruct (registry _ _) as [resp|].
      * destruct (handleResponse _ _ _ _ _) as [[w2 e2] b] eqn:Hh.
        apply handleResponse_cycle in Hh.
        destruct b; simplify_eq; [done |].
        eapply cycle_rel_trans; [exact Hh | eauto].
      * eapply cycle_rel_trans; [apply cycle_rel_sleep | eauto].
    + rewrite retryLoop_done in H by done. simplify_eq. apply cycle_rel_refl.
Qed.

(** A retry cycle that starts with budget left sends a request first, and
    that request asks for the bytes after those on disk. *)
Lemma retryLoop_first_get token fuel retries lastErr w w' out :
  retries < maxRetries ->
  retryLoop registry layerURL destPath token (S fuel) retries lastErr w = (w', out) ->
  exists rest,
    trace w' = trace w
               ++ EvGet BlobClient (blobRequest layerURL token (getFileSize w destPath)) :: rest.
Proof.
  intros Hlt H. rewrite retryLoop_step in H by done. cbv zeta in H.
  set (w1 := log _ w) in *.
  assert (cycle_rel destPath w1 w') as (evs & T & _).
  { destruct (registry _ _) as [resp|].
    - destruct (handleResponse _ _ _ _ _) as [[w2 e2] b] eqn:Hh.
      apply handleResponse_cycle in Hh.
      destruct b; simplify_eq; [done |].
      eapply cycle_rel_trans; [exact Hh | eapply retryLoop_cycle; eauto].
    - eapply cycle_rel_trans; [apply cycle_rel_sleep | eapply retryLoop_cycle; eauto]. }
  exists evs. rewrite T. subst w1. simpl. by rewrite <- app_assoc.
Qed.

Lemma validate_nil w p d :
  is_nil (validateFileIntegrity w p d) = true ->
  exists data, files w !! p = Some data /\ digest_of data = d.
Proof.
  unfold validateFileIntegrity. destruct (files w !! p) as [data|]; [|done].
  case_decide as Hd; [done |]. intros _. exists data. split; [done |].
  by destruct (decide (digest_of data = d)).
Qed.


Lemma fetchLoop_unfold token fuel w :
  fetchLoop registry layerURL destPath size expectedDigest token (S fuel) w =
    if decide (0 < size /\ getFileSize w destPath = size) then
      if is_nil (validateFileIntegrity w destPath expectedDigest) then (w, Returned err_nil)
      else fetchLoop registry layerURL destPath size expectedDigest token fuel
             (fst (os_Remove destPath w))
    else
      let '(w1, truncErr) := cycle_start destPath size w in
      if is_nil truncErr then
        match retryLoop registry layerURL destPath token fuel 0 err_nil
                (log (EvCycle (getFileSize w1 destPath)) w1) with
        | (w2, Running) => (w2, Running)
        | (w2, Returned (true, _)) =>
            fetchLoop registry layerURL destPath size expectedDigest token fuel w2
        | (w2, Returned (false, lastErr)) =>
            (w2, Returned (WrapError ErrCodeImageDownload
                             ("经过 " +:+ fmt_d maxRetries +:+ " 次尝试后，层块下载失败") lastErr))
        end
      else (w1, Returned (WrapError ErrCodeFileOperation "无法截断文件" truncErr)).
Proof. reflexivity. Qed.

(** The fetch loop returns success only after the size check and the
    digest check have passed on the file as it is on disk. *)
Lemma fetchLoop_success token fuel : forall w w',
  fetchLoop registry layerURL destPath size expectedDigest token fuel w = (w', Returned err_nil) ->
  file_ok w' destPath size expectedDigest /\ 0 < size.
Proof.
  induction fuel as [|fuel IH]; intros w w' H; [done |].
  rewrite fetchLoop_unfold in H.
  destruct (decide _) as [[Hs Hc] | Hn].
  - destruct (is_nil _) eqn:V; [| by eapply IH].
    simplify_eq. apply validate_nil in V as (data & Hf & Hd).
    split; [| done]. exists data. repeat split; auto.
    by rewrite <- (getFileSize_Some _ _ _ Hf).
  - destruct (cycle_start destPath size w) as [w1 terr]. destruct (is_nil terr); [| done].
    destruct (retryLoop _ _ _ _ _ _ _ _) as [w2 [|[[] e]]]; simplify_eq. by eapply IH.
Qed.

Lemma attempt_fetch_event dest e : attempt_event dest e -> fetch_event dest e.
Proof. destruct e as [c r| | | | | | | |]; try destruct c; simpl; done. Qed.

Lemma cycle_rel_grows w w' : cycle_rel destPath w w' -> grows (fetch_event destPath) w w'.
Proof.
  intros (evs & T & F & _). exists evs. split; [done |].
  eapply Forall_impl; [exact F | apply attempt_fetch_event].
Qed.

Lemma os_Remove_grows (P : Event -> Prop) w :
  P (EvRemove destPath) -> grows P w (fst (os_Remove destPath w)).
Proof.
  intros HP. unfold os_Remove. destruct (files w !! destPath); simpl.
  - by apply (grows_step _ (EvRemove destPath)). - apply grows_refl.
Qed.

Lemma cycle_start_grows (P : Event -> Prop) w w1 e :
  P (EvTruncate destPath) -> cycle_start destPath size w = (w1, e) -> grows P w w1.
Proof.
  intros HP. unfold cycle_start, os_Truncate0.
  case_decide; [destruct (files w !! destPath) |];
    intros; simplify_eq; try apply grows_refl.
  by apply (grows_step _ (EvTruncate destPath)).
Qed.

Lemma fetchLoop_grows token fuel : forall w w' out,
  fetchLoop registry layerURL destPath size expectedDigest token fuel w = (w', out) ->
  grows (fetch_event destPath) w w'.
Proof.
  induction fuel as [|fuel IH]; intros w w' out H.
  - simpl in H. simplify_eq. apply grows_refl.
  - rewrite fetchLoop_unfold in H.
    destruct (decide _) as [[Hs Hc] | Hn].
    + destruct (is_nil _); simplify_eq; [apply grows_refl |].
      eapply grows_trans; [by apply os_Remove_grows | eauto].
    + destruct (cycle_start destPath size w) as [w1 terr] eqn:Hcs.
      apply (cycle_start_grows (fetch_event destPath)) in Hcs; [| done].
      destruct (is_nil terr); simplify_eq; [| done].
      eapply grows_trans; [exact Hcs |].
      eapply grows_trans; [by apply (grows_log _ (EvCycle (getFileSize w1 destPath))) |].
      destruct (retryLoop _ _ _ _ _ _ _ _) as [w2 o] eqn:Hr.
      apply retryLoop_cycle, cycle_rel_grows in Hr.
      destruct o as [|[[] e]]; simplify_eq; eauto using grows_trans.
Qed.




Lemma fetchLoop_exhausted token fuel : forall w w' e,
  fetchLoop registry layerURL destPath size expectedDigest token fuel w = (w', Returned e) ->
  code_of e = Some ErrCodeImageDownload ->
  left_in_place destPath w'.
Proof.
  induction fuel as [|fuel IH]; intros w w' e H He; [done |].
  rewrite fetchLoop_unfold in H.
  destruct (decide _) as [[_ Hc] | Hn].
  - destruct (is_nil _); simplify_eq; try done; eauto.
  - destruct (cycle_start destPath size w) as [w1 terr] eqn:Hcs.
    destruct (is_nil terr); simplify_eq; try done.
    destruct (retryLoop _ _ _ _ _ _ _ _) as [w2 o] eqn:Hr.
    destruct o as [|[[] e']]; simplify_eq; try done; eauto.
    apply retryLoop_cycle in Hr as (cyc & T & F & K & A).
    exists (trace w1), (getFileSize w1 destPath), cyc. simpl in T.
    rewrite T, <- app_assoc. repeat split; auto.
    intros [Hpos | Happ]; [| auto].
    apply K. simpl. apply getFileSize_pos_exists in Hpos as [data ->]. eauto.
Qed.

(** With fuel for one request, the first retry cycle of the fetch loop
    starts from the truncated world and asks for the bytes missing there. *)
Lemma fetchLoop_first_cycle token fuel w w' out w1 :
  ~ (0 < size /\ getFileSize w destPath = size) ->
  cycle_start destPath size w = (w1, err_nil) ->
  fetchLoop registry layerURL destPath size expectedDigest token (S (S fuel)) w = (w', out) ->
  exists rest,
    trace w' = trace w1
               ++ EvCycle (getFileSize w1 destPath)
               :: EvGet BlobClient (blobRequest layerURL token (getFileSize w1 destPath))
               :: rest.
Proof.
  intros Hn Hcs H. rewrite fetchLoop_unfold in H.
  rewrite decide_False in H by done. rewrite Hcs in H. simpl is_nil in H. cbv iota in H.
  destruct (retryLoop _ _ _ _ _ _ _ _) as [w2 o] eqn:Hr.
  apply retryLoop_first_get in Hr as [rest1 T1]; [| done].
  assert (grows (fetch_event destPath) w2 w') as (rest2 & T2 & _).
  { destruct o as [|[[] e]]; simplify_eq; eauto using grows_refl, fetchLoop_grows. }
  exists (rest1 ++ rest2). rewrite T2, T1. simpl.
  rewrite <- !app_assoc. simpl. done.
Qed.

(** *** The token handshake touches no file and depends on the world
    only through the number of requests already made. *)

Lemma authToken_frame ref w w1 r :
  authToken registry json_DecodeToken ref w = (w1, r) ->
  grows auth_event w w1 /\ files w1 = files w /\ tars w1 = tars w.
Proof.
  unfold authToken, http_Get, http_Do. intros H.
  repeat case_match; simplify_eq; simpl; (split; [| done]);
    repeat (eapply grows_trans; [| by apply grows_log]); apply grows_refl.
Qed.

Lemma authToken_result ref w v :
  requests_made w = requests_made v ->
  snd (authToken registry json_DecodeToken ref w)
  = snd (authToken registry json_DecodeToken ref v).
Proof.
  unfold authToken, http_Get, http_Do. intros E.
  rewrite !requests_made_log. simpl. rewrite E.
  repeat case_match; simplify_eq; done.
Qed.

Lemma getFileSize_files w v p : files w = files v -> getFileSize w p = getFileSize v p.
Proof. unfold getFileSize. by intros ->. Qed.

Lemma downloadLayerWithRetry_unfold fuel ref w :
  downloadLayerWithRetry registry json_DecodeToken fuel ref layerURL destPath size
    expectedDigest w
  = if decide (0 < getFileSize w destPath /\ 0 < size /\ getFileSize w destPath = size) then
      if decide (expectedDigest <> "") then
        if is_nil (validateFileIntegrity w destPath expectedDigest) then (w, Returned err_nil)
        else authThenFetch registry json_DecodeToken layerURL destPath size expectedDigest fuel ref (fst (os_Remove destPath w))
      else (w, Returned err_nil)
    else authThenFetch registry json_DecodeToken layerURL destPath size expectedDigest fuel ref w.
Proof.
  unfold downloadLayerWithRetry, authThenFetch.
  repeat case_decide; try done. by destruct (is_nil _).
Qed.

Lemma authThenFetch_success fuel ref w w' :
  authThenFetch registry json_DecodeToken layerURL destPath size expectedDigest fuel ref w = (w', Returned err_nil) ->
  file_ok w' destPath size expectedDigest /\ 0 < size.
Proof.
  unfold authThenFetch. destruct (authToken _ _ _ _) as [w1 [tok err]].
  destruct (is_nil err); [| done]. apply fetchLoop_success.
Qed.

Lemma authThenFetch_exhausted fuel ref w w' e :
  authThenFetch registry json_DecodeToken layerURL destPath size expectedDigest fuel ref w = (w', Returned e) ->
  code_of e = Some ErrCodeImageDownload ->
  left_in_place destPath w'.
Proof.
  unfold authThenFetch. destruct (authToken _ _ _ _) as [w1 [tok err]].
  destruct (is_nil err); [apply fetchLoop_exhausted |].
  intros; simplify_eq; done.
Qed.



Lemma cycle_start_fits w :
  ~ (0 < size /\ size < getFileSize w destPath) ->
  cycle_start destPath size w = (w, err_nil).
Proof. unfold cycle_start. intros H. by rewrite decide_False. Qed.


(** After a successful token handshake the fetch loop runs with that token. *)
Lemma authThenFetch_token fuel ref token w :
  snd (authToken registry json_DecodeToken ref w) = (token, err_nil) ->
  exists w1 auth,
    authThenFetch registry json_DecodeToken layerURL destPath size expectedDigest fuel ref w
    = fetchLoop registry layerURL destPath size expectedDigest token fuel w1
    /\ trace w1 = trace w ++ auth /\ Forall auth_event auth /\ files w1 = files w.
Proof.
  unfold authThenFetch. destruct (authToken _ _ _ _) as [w1 [tok err]] eqn:Ha.
  simpl. intros [= -> ->].
  apply authToken_frame in Ha as ((auth & T & F) & Hf & _).
  exists w1, auth. simpl. done.
Qed.

(** C3 (amended).  Whenever [downloadLayerWithRetry] returns success, the
    destination holds exactly [size] bytes and, when an expected digest is
    given (non-empty), their SHA-256 digest is the expected one.  Whenever
    it returns the error of an exhausted retry budget, the last thing it
    ran is a retry cycle that called neither [os.Remove] nor [os.Truncate]:
    a file that held bytes when the cycle started, or that the cycle wrote
    to, is still at the destination.  Its content may have been started
    afresh, since a 200 answer reopens the file with O_TRUNC. *)
Theorem downloadLayerWithRetry_contract fuel ref w w' e :
  downloadLayerWithRetry registry json_DecodeToken fuel ref layerURL destPath size
    expectedDigest w = (w', Returned e) ->
  (e = err_nil ->
     exists data, files w' !! destPath = Some data
                  /\ Z.of_nat (length data) = size
                  /\ (expectedDigest <> "" -> digest_of data = expectedDigest))
  /\ (code_of e = Some ErrCodeImageDownload -> left_in_place destPath w').
Proof.
  rewrite downloadLayerWithRetry_unfold. intros H.
  assert (forall v, authThenFetch registry json_DecodeToken layerURL destPath size expectedDigest fuel ref v = (w', Returned e) ->
            (e = err_nil ->
             exists data, files w' !! destPath = Some data
                          /\ Z.of_nat (length data) = size
                          /\ (expectedDigest <> "" -> digest_of data = expectedDigest))
            /\ (code_of e = Some ErrCodeImageDownload -> left_in_place destPath w')) as Hfetch.
  { intros v Hv. split.
    - intros ->. apply authThenFetch_success in Hv as [(data & ? & ? & ?) _]. eauto.
    - intros He. by eapply authThenFetch_exhausted. }
  case_decide as Hpre; [| eauto].
  destruct Hpre as (Hpos & Hs & Hsz).
  apply getFileSize_pos_exists in Hpos as [data Hf].
  rewrite (getFileSize_Some _ _ _ Hf) in Hsz.
  case_decide as Hd.
  - destruct (is_nil _) eqn:V; [| eauto].
    simplify_eq. split; [| done]. intros _.
    apply validate_nil in V as (data' & Hf' & Hdig). simplify_eq. eauto.
  - simplify_eq. split; [| done]. intros _. exists data. repeat split; auto. done.
Qed.

(** C6.  When the destination already holds N bytes, 0 < N < size, and the
    token handshake succeeds, the first blob request carries
    [Range: bytes=N-] (nothing but the handshake precedes it), and a fetch
    that completes successfully leaves exactly [size] bytes with the
    expected digest. *)
Theorem resume_sends_range fuel ref token data w w' out :
  files w !! destPath = Some data ->
  0 < Z.of_nat (length data) < size ->
  snd (authToken registry json_DecodeToken ref w) = (token, err_nil) ->
  (2 <= fuel)%nat ->
  downloadLayerWithRetry registry json_DecodeToken fuel ref layerURL destPath size
    expectedDigest w = (w', out) ->
  (exists auth rest,
      trace w' = trace w ++ auth
                 ++ EvCycle (Z.of_nat (length data))
                 :: EvGet BlobClient
                      {| URL := layerURL;
                         Authorization := if decide (token <> "")
                                          then Some ("Bearer " +:+ token) else None;
                         Range := Some ("bytes=" +:+ fmt_d (Z.of_nat (length data)) +:+ "-") |}
                 :: rest
      /\ Forall auth_event auth)
  /\ (out = Returned err_nil -> file_ok w' destPath size expectedDigest).
Proof.
  intros Hf Hn Ha Hfuel. rewrite downloadLayerWithRetry_unfold.
  pose proof (getFileSize_Some _ _ _ Hf) as Hsz.
  rewrite decide_False by lia.
  destruct (authThenFetch_token fuel ref token w Ha) as (w1 & auth & -> & T & F & Hfs).
  destruct fuel as [|[|fuel]]; [lia | lia |]. intros H. split.
  - assert (getFileSize w1 destPath = Z.of_nat (length data)) as Hsz1
      by (by rewrite (getFileSize_files w1 w)).
    eapply fetchLoop_first_cycle in H as [rest Hrest];
      [| rewrite Hsz1; lia | apply cycle_start_fits; rewrite Hsz1; lia].
    exists auth, rest. split; [| done].
    rewrite Hrest, T, Hsz1, <- app_assoc. unfold blobRequest.
    by rewrite (decide_True (P := 0 < _)) by lia.
  - intros ->. by apply fetchLoop_success in H as [? _].
Qed.



End FetcherProperties.

(** *** Runs of the fetcher *)

Lemma digest_of_not_empty data : digest_of data <> "".
Proof. unfold digest_of. simpl. discriminate. Qed.

(** C3, counterexample.  Three runs of the fetcher for the three-byte
    blob whose digest is [digest_abc].
    (1) With an empty expected digest a file of the right size is accepted
    as it is: the call returns success at once (nothing is requested or
    written) although the digest of the file is not the expected one.
    (2) Two bytes are on disk; the resumed request is answered 200 with a
    body that breaks at once, then every request fails.  The call returns
    the error of the exhausted retry budget, and the two bytes are gone:
    the file was reopened with O_TRUNC and is empty.
    (3) Two bytes are on disk; the resumed request is answered 206 with a
    third byte, the completed file fails its checksum and is removed, then
    every request fails.  The call returns the error of the exhausted
    retry budget, and no file is at the destination. *)
Lemma unverified_success_and_lost_partial_file :
  (let r := fetch_abc [] 1 "" (world_of [(dest_abc, bytes_of "xyz")]) in
   snd r = Returned err_nil
   /\ trace (fst r) = []
   /\ ~ file_ok (fst r) dest_abc 3 "")
  /\ (let w := world_of [(dest_abc, bytes_of "ab")] in
      let r := fetch_abc [answer 200 []; broken_answer 200 []] 8 digest_abc w in
      files w !! dest_abc = Some (bytes_of "ab")
      /\ code_of (match snd r with Returned e => e | Running => err_nil end)
         = Some ErrCodeImageDownload
      /\ map Range (blob_gets (trace (fst r)))
         = [Some "bytes=2-"; None; None; None; None; None]
      /\ files (fst r) !! dest_abc = Some [])
  /\ (let w := world_of [(dest_abc, bytes_of "xy")] in
      let r := fetch_abc [answer 200 []; answer 206 (bytes_of "z")] 10 digest_abc w in
      files w !! dest_abc = Some (bytes_of "xy")
      /\ code_of (match snd r with Returned e => e | Running => err_nil end)
         = Some ErrCodeImageDownload
      /\ map Range (blob_gets (trace (fst r)))
         = [Some "bytes=2-"; None; None; None; None; None]
      /\ files (fst r) !! dest_abc = None).
Proof.
  split; [| split].
  - split; [vm_compute; reflexivity |]. split; [vm_compute; reflexivity |].
    intros (data & _ & _ & Hd). by apply digest_of_not_empty in Hd.
  - by_evaluation.
  - by_evaluation.
Qed.

(** C3, witness: a fetch from scratch that succeeds, and one that gives up
    after the retry budget with the bytes of its last attempt left on disk. *)
Lemma downloadLayerWithRetry_contract_witness :
  (let r := fetch_abc [answer 200 []; answer 200 blob_abc] 3 digest_abc (world_of []) in
   snd r = Returned err_nil
   /\ exists data, files (fst r) !! dest_abc = Some data
                   /\ Z.of_nat (length data) = 3
                   /\ (digest_abc <> "" -> digest_of data = digest_abc))
  /\ (let r := fetch_abc [answer 200 []; None; None; None; None; broken_answer 200 (bytes_of "ab")]
                 7 digest_abc (world_of []) in
      code_of (match snd r with Returned e => e | Running => err_nil end)
      = Some ErrCodeImageDownload
      /\ left_in_place dest_abc (fst r)
      /\ files (fst r) !! dest_abc = Some (bytes_of "ab")).
Proof.
  split.
  - intros r. assert (snd r = Returned err_nil) as Hr by (vm_compute; reflexivity).
    split; [exact Hr |].
    apply (downloadLayerWithRetry_contract (script [answer 200 []; answer 200 blob_abc])
             no_token url_abc dest_abc 3 digest_abc 3 ref_app (world_of []) (fst r) err_nil);
      [| reflexivity].
    rewrite <- Hr. apply surjective_pairing.
  - intros r.
    assert (exists e, snd r = Returned e /\ code_of e = Some ErrCodeImageDownload)
      as (e & Hr & He) by (eexists; split; vm_compute; reflexivity).
    split; [by rewrite Hr |]. split; [| vm_compute; reflexivity].
    apply (downloadLayerWithRetry_contract
             (script [answer 200 []; None; None; None; None; broken_answer 200 (bytes_of "ab")])
             no_token url_abc dest_abc 3 digest_abc 7 ref_app (world_of []) (fst r) e);
      [| exact He].
    rewrite <- Hr. apply surjective_pairing.
Defined.

(** C6, witness: two of three bytes are on disk; the request asks for
    [bytes=2-], the registry answers 206 with the last byte, and the file
    ends up complete and verified. *)
Lemma resume_sends_range_witness :
  let w := world_of [(dest_abc, bytes_of "ab")] in
  let r := fetch_abc [answer 200 []; answer 206 (bytes_of "c")] 3 digest_abc w in
  snd r = Returned err_nil
  /\ (exists auth rest,
         trace (fst r)
         = trace w ++ auth
           ++ EvCycle 2
           :: EvGet BlobClient {| URL := url_abc; Authorization := None;
                                  Range := Some "bytes=2-" |}
           :: rest
         /\ Forall auth_event auth)
  /\ files (fst r) !! dest_abc = Some blob_abc.
Proof.
  intros w r. assert (snd r = Returned err_nil) as Hr by (vm_compute; reflexivity).
  split; [exact Hr |]. split; [| vm_compute; reflexivity].
  refine (proj1 (resume_sends_range (script [answer 200 []; answer 206 (bytes_of "c")])
                   no_token url_abc dest_abc 3 digest_abc 3 ref_app "" (bytes_of "ab")
                   w (fst r) (snd r) _ _ _ _ _)).
  - vm_compute; reflexivity.
  - vm_compute. split; reflexivity.
  - vm_compute; reflexivity.
  - lia.
  - apply surjective_pairing.
Defined.





(** *** The retry budget and the backoff *)

Section Stall.

Variable registry : nat -> Request -> option Response.
Variables (layerURL destPath token : string).

(** When the destination holds some bytes and every request fails in
    transport, the retry counter never moves: with fuel for [n] attempts the
    retry loop has made [n] requests, slept the same delay after each, and is
    still running. *)
Lemma retryLoop_stalls (n : nat) : forall retries lastErr w data,
  files w !! destPath = Some data -> (0 < length data)%nat ->
  retries < maxRetries ->
  (forall k req, (requests_made w <= k)%nat -> registry k req = None) ->
  exists w' evs,
    retryLoop registry layerURL destPath token n retries lastErr w = (w', Running)
    /\ trace w' = trace w ++ evs
    /\ files w' = files w
    /\ length (blob_gets evs) = n
    /\ sleeps evs = replicate n ((retries + 1) * 2).
Proof.
  induction n as [|n IH]; intros retries lastErr w data Hf Hd Hlt Hreg.
  - exists w, []. simpl. by rewrite app_nil_r.
  - rewrite retryLoop_step by done. cbv zeta.
    rewrite (getFileSize_Some _ _ _ Hf), decide_True by lia.
    rewrite Hreg by lia.
    set (w1 := time_Sleep _ (log _ w)).
    destruct (IH retries (WrapError ErrCodeNetworkError "请求失败" (LibError "Do")) w1 data)
      as (w' & evs & Hrun & T & Hfs & Hg & Hsl); try done.
    { intros k req Hk. apply Hreg. subst w1. unfold time_Sleep in Hk.
      rewrite !requests_made_log in Hk. simpl in Hk. lia. }
    exists w', (EvGet BlobClient (blobRequest layerURL token (Z.of_nat (length data)))
                :: EvSleep ((retries + 1) * 2) :: evs).
    split; [exact Hrun |]. rewrite T, Hfs. subst w1. simpl.
    rewrite <- !app_assoc. simpl. rewrite Hg, Hsl. done.
Qed.

End Stall.

(** C5.  Two runs against a registry that answers the probe and then fails
    every request.  From an empty destination the fetch makes five attempts
    and returns the error of an exhausted budget, but the delays are 4, 6, 8,
    10 and 12 seconds (attempt number plus one, times two).  With two bytes
    already on disk no attempt is ever counted: whatever fuel [n] the loop is
    given, it has made [n] attempts two seconds apart and has not returned. *)
Theorem retry_budget_and_backoff :
  (let r := fetch_abc [answer 200 []] 7 digest_abc (world_of []) in
   snd r = Returned (AppError ErrCodeImageDownload "经过 5 次尝试后，层块下载失败"
                       (AppError ErrCodeNetworkError "请求失败" (LibError "Do")))
   /\ length (blob_gets (trace (fst r))) = 5%nat
   /\ sleeps (trace (fst r)) = [4; 6; 8; 10; 12])
  /\ (forall n : nat,
        let r := fetch_abc [answer 200 []] (S n) digest_abc
                   (world_of [(dest_abc, bytes_of "ab")]) in
        snd r = Running
        /\ length (blob_gets (trace (fst r))) = n
        /\ sleeps (trace (fst r)) = replicate n 2).
Proof.
  split; [by_evaluation |].
  intros n r. subst r. unfold fetch_abc.
  rewrite downloadLayerWithRetry_unfold.
  set (w := world_of [(dest_abc, bytes_of "ab")]).
  assert (files w !! dest_abc = Some (bytes_of "ab")) as Hf by (vm_compute; reflexivity).
  assert (Z.of_nat (length (bytes_of "ab")) = 2) as Hlen by reflexivity.
  rewrite (getFileSize_Some _ _ _ Hf), Hlen. rewrite decide_False by lia.
  unfold authThenFetch.
  destruct (authToken _ _ _ _) as [w1 [tok err]] eqn:Ha.
  assert (tok = "" /\ err = err_nil) as [-> ->].
  { assert (snd (authToken (script [answer 200 []]) no_token ref_app w) = ("", err_nil))
      as Hs by (vm_compute; reflexivity).
    rewrite Ha in Hs. simpl in Hs. by injection Hs. }
  assert (trace w1 = [EvGet AuthClient {| URL := "https://registry.example/v2/";
                                          Authorization := None; Range := None |}]) as T1.
  { change w1 with (fst (w1, ("", err_nil))). rewrite <- Ha. vm_compute. reflexivity. }
  apply authToken_frame in Ha as (_ & Hfs & _).
  assert (files w1 !! dest_abc = Some (bytes_of "ab")) as Hf1 by (by rewrite Hfs).
  simpl is_nil. cbv iota. rewrite fetchLoop_unfold.
  rewrite (getFileSize_Some _ _ _ Hf1), Hlen. rewrite decide_False by lia.
  rewrite cycle_start_fits by (rewrite (getFileSize_Some _ _ _ Hf1), Hlen; lia).
  simpl is_nil. cbv iota.
  set (wc := log _ w1).
  destruct (retryLoop_stalls (script [answer 200 []]) url_abc dest_abc "" n 0 err_nil wc
              (bytes_of "ab")) as (w' & evs & Hrun & T & _ & Hg & Hsl).
  - subst wc. simpl. exact Hf1.
  - vm_compute. lia.
  - done.
  - intros k req Hk. subst wc. rewrite requests_made_log in Hk. simpl in Hk.
    unfold requests_made in Hk. rewrite T1 in Hk. simpl in Hk.
    unfold script. destruct k as [|k]; [lia |]. done.
  - rewrite Hrun. simpl. rewrite T. subst wc. simpl. rewrite T1. simpl.
    unfold blob_gets, sleeps in *. rewrite ?omap_app. simpl.
    rewrite Hg, Hsl. done.
Qed.

(** ** The authenticator *)

Lemma occurs_app c a b : occurs c (a +:+ b) <-> occurs c a \/ occurs c b.
Proof. induction a as [|x a IH]; simpl; [tauto | rewrite IH; tauto]. Qed.

Lemma SplitN2_cut k rest c :
  ~ occurs c k -> GoStrings.SplitN2 (k +:+ String c rest) c = [k; rest].
Proof.
  induction k as [|x k IH]; simpl; intros Hk.
  - by rewrite decide_True.
  - rewrite decide_False by tauto. rewrite IH by tauto. done.
Qed.

Lemma Split_whole s c : ~ occurs c s -> GoStrings.Split s c = [s].
Proof.
  induction s as [|x s IH]; simpl; intros Hs; [done |].
  rewrite decide_False by tauto. rewrite IH by tauto. done.
Qed.

Lemma Split_cut p rest c :
  ~ occurs c p ->
  GoStrings.Split (p +:+ String c rest) c = p :: GoStrings.Split rest c.
Proof.
  induction p as [|x p IH]; simpl; intros Hp.
  - by rewrite decide_True.
  - rewrite decide_False by tauto. rewrite IH by tauto. done.
Qed.

Lemma Split_Join parts c :
  parts <> [] -> Forall (fun p => ~ occurs c p) parts ->
  GoStrings.Split (GoStrings.Join parts (String c EmptyString)) c = parts.
Proof.
  induction parts as [|p parts IH]; [done |]. intros _ HF.
  apply Forall_cons in HF as [Hp HF].
  destruct parts as [|q parts]; [by apply Split_whole |].
  change (GoStrings.Join (p :: q :: parts) (String c EmptyString))
    with (p +:+ String c (GoStrings.Join (q :: parts) (String c EmptyString))).
  rewrite Split_cut by done. by rewrite IH.
Qed.

Lemma TrimRight_plain s c : ~ occurs c s -> GoStrings.TrimRight s c = s.
Proof.
  induction s as [|x s IH]; simpl; intros Hs; [done |].
  rewrite IH by tauto. destruct s; [by rewrite decide_False by tauto | done].
Qed.

Lemma TrimRight_cut s c :
  GoStrings.TrimRight (s +:+ String c EmptyString) c = GoStrings.TrimRight s c.
Proof.
  induction s as [|x s IH]; simpl; [by rewrite decide_True |]. by rewrite IH.
Qed.

Lemma Trim_wrapped v c :
  ~ occurs c v ->
  GoStrings.Trim (String c (v +:+ String c EmptyString)) c = v.
Proof.
  intros Hv. unfold GoStrings.Trim. simpl. rewrite decide_True by done.
  destruct v as [|x v]; simpl.
  - by rewrite decide_True.
  - simpl in Hv. rewrite decide_False by tauto.
    change (String x (v +:+ String c EmptyString))
      with (String x v +:+ String c EmptyString).
    rewrite TrimRight_cut. apply TrimRight_plain. simpl. tauto.
Qed.

Lemma Trim_quoted v : ~ occurs dquote v -> GoStrings.Trim (quoted v) dquote = v.
Proof. apply Trim_wrapped. Qed.

Lemma challenge_param_no_comma kv : plain_param kv -> ~ occurs "," (challenge_param kv).
Proof.
  intros (_ & Hk & Hv & _). unfold challenge_param, quoted.
  rewrite occurs_app. simpl. rewrite occurs_app. simpl.
  intros [? | [? | [? | [? | [? | []]]]]]; try done.
Qed.

(** parseAuthHeader reads a Bearer challenge of comma-separated pairs of a
    key and a quoted value into exactly its fields. *)
Lemma parseAuthHeader_bearer kvs :
  Forall plain_param kvs ->
  parseAuthHeader (bearer_challenge kvs) = challenge_fields kvs.
Proof.
  intros Hwf. unfold parseAuthHeader, bearer_challenge, challenge_fields.
  set (J := GoStrings.Join _ _).
  change ("Bearer " +:+ J) with ("Bearer" +:+ String " " J).
  rewrite SplitN2_cut by (simpl; intuition discriminate).
  rewrite decide_True by done. subst J.
  set (step := fun (authHeader : gmap string string) (param : string) =>
                 match GoStrings.SplitN2 param "=" with
                 | [k; v] => <[k := GoStrings.Trim v dquote]> authHeader
                 | _ => authHeader
                 end).
  assert (forall kv m, plain_param kv -> step m (challenge_param kv) = <[fst kv := snd kv]> m)
    as Hstep.
  { intros [k v] m (Hk & _ & _ & Hv). unfold step, challenge_param. simpl in *.
    change (k +:+ "=" +:+ quoted v) with (k +:+ String "=" (quoted v)).
    rewrite SplitN2_cut by done. by rewrite Trim_quoted. }
  destruct kvs as [|kv kvs]; [done |].
  rewrite (Split_Join _ ",") by
    (done || (rewrite Forall_map; eapply Forall_impl; [exact Hwf |];
              apply challenge_param_no_comma)).
  generalize (∅ : gmap string string).
  revert Hwf. generalize (kv :: kvs). clear kv kvs.
  intros l. induction l as [|kv l IH]; intros Hwf m; [done |].
  apply Forall_cons in Hwf as [Hkv Hwf]. simpl. rewrite Hstep by done. by apply IH.
Qed.

(** C9.  The result of the authenticator is decided by the status of the
    probe.  200: the empty token.  401: the challenge is parsed into its
    fields (a Bearer challenge of comma-separated pairs of a key and a
    quoted value yields exactly those pairs), the scope defaults to
    [repository:<repo>:pull] when the challenge has none, the token is
    requested from [realm?service=..&scope=..], and a 200 answer yields the
    token decoded from its body, any other answer an authentication error.
    Any other probe status: an authentication error. *)
Theorem authToken_by_probe_status
    (registry : nat -> Request -> option Response)
    (json_DecodeToken : list byte -> bool -> option string)
    (ref : Reference) (w : World) (resp : Response) :
  registry (requests_made w) (probe_request ref) = Some resp ->
  let result := snd (authToken registry json_DecodeToken ref w) in
  (StatusCode resp = 200 -> result = ("", err_nil))
  /\ (StatusCode resp = 401 ->
      (forall kvs, Forall plain_param kvs -> WwwAuthenticate resp = bearer_challenge kvs ->
                   parseAuthHeader (WwwAuthenticate resp) = challenge_fields kvs)
      /\ let field := fun k => default "" (parseAuthHeader (WwwAuthenticate resp) !! k) in
         let scope := if decide (field "scope" = "")
                      then "repository:" +:+ RepositoryStr ref +:+ ":pull"
                      else field "scope" in
         let tokenURL := field "realm" +:+ "?service=" +:+ field "service"
                         +:+ "&scope=" +:+ scope in
         forall tokenResp,
           registry (S (requests_made w)) (get_request tokenURL) = Some tokenResp ->
           (StatusCode tokenResp = 200 ->
            forall t, json_DecodeToken (Body tokenResp) (BodyErr tokenResp) = Some t ->
                      result = (t, err_nil))
           /\ (StatusCode tokenResp <> 200 ->
               fst result = "" /\ code_of (snd result) = Some ErrCodeAuthError))
  /\ (StatusCode resp <> 200 -> StatusCode resp <> 401 ->
      fst result = "" /\ code_of (snd result) = Some ErrCodeAuthError).
Proof.
  intros Hprobe result. subst result.
  unfold authToken, http_Get, http_Do. fold (probe_request ref). rewrite Hprobe.
  split; [| split].
  - intros H200. rewrite decide_False by lia. rewrite decide_False by lia. done.
  - intros H401. split; [intros kvs Hwf ->; by apply parseAuthHeader_bearer |].
    cbv zeta. intros tokenResp Htok. cbv beta in Htok |- *.
    rewrite decide_True by done. rewrite requests_made_log. simpl is_get. cbv iota.
    unfold get_request in Htok. rewrite Htok.
    split.
    + intros H200 t Ht. rewrite decide_False by lia. by rewrite Ht.
    + intros Hne. rewrite decide_True by done. done.
  - intros Hn200 Hn401. rewrite decide_False by done. rewrite decide_True by done. done.
Qed.

(** C9, witness: a probe answered 401 with a challenge that names realm and
    service but no scope; the token comes from the realm, asked with the
    default scope. *)
Lemma authToken_by_probe_status_witness :
  let w := world_of [] in
  let r := authToken handshake_registry decode_token_document ref_app w in
  snd r = ("t0k3n", err_nil)
  /\ trace (fst r)
     = [ EvGet AuthClient (probe_request ref_app);
         EvGet AuthClient
           (get_request ("https://auth.example/token?service=registry.example"
                         +:+ "&scope=repository:library/app:pull")) ]
  /\ parseAuthHeader challenge_app
     = challenge_fields [("realm", "https://auth.example/token");
                         ("service", "registry.example")].
Proof.
  intros w r.
  pose proof (authToken_by_probe_status handshake_registry decode_token_document ref_app w
                {| StatusCode := 401; WwwAuthenticate := challenge_app;
                   Body := []; BodyErr := false |} eq_refl) as (_ & H401 & _).
  destruct (H401 eq_refl) as [Hparse Htoken].
  split; [| split].
  - refine (proj1 (Htoken {| StatusCode := 200; WwwAuthenticate := "";
                             Body := token_document; BodyErr := false |} _)
              eq_refl "t0k3n" _);
      vm_compute; reflexivity.
  - vm_compute; reflexivity.
  - apply (Hparse [("realm", "https://auth.example/token"); ("service", "registry.example")]);
      [| reflexivity].
    repeat constructor; simpl; intuition discriminate.
Defined.

(** ** The layer plan and the manifest builder *)

Lemma collectDigests_ok layers ds :
  collectDigests layers = (ds, err_nil) -> ds = map layer_digest layers.
Proof.
  revert ds. induction layers as [|layer layers IH]; simpl; intros ds H; [by simplify_eq |].
  unfold layer_digest at 1. destruct (layer_Digest layer) as [digest err].
  destruct (is_nil err); [| done].
  destruct (collectDigests layers) as [ds' err']. simplify_eq. simpl.
  by rewrite (IH ds').
Qed.

Lemma fetched_app a b : fetched (a ++ b) = fetched a ++ fetched b.
Proof. apply omap_app. Qed.

Lemma fetched_none evs : Forall not_fetch_mark evs -> fetched evs = [].
Proof.
  induction 1 as [|e evs He _ IH]; [done |].
  destruct e; simpl in He; try done; exact IH.
Qed.

Section BuilderProperties.

Variable registry : nat -> Request -> option Response.
Variable json_DecodeToken : list byte -> bool -> option string.
Variable ConfigFile : Type.
Variable json_MarshalConfig : ConfigFile -> list byte * error.
Variable json_MarshalManifest : list (gmap string Value) -> list byte * error.
Variable json_MarshalRepositories : gmap string (gmap string string) -> list byte * error.
Variable name_ParseReference : string -> Reference * error.

Lemma downloadLayerWithRetry_no_mark fuel ref url dest size dig w w' out :
  downloadLayerWithRetry registry json_DecodeToken fuel ref url dest size dig w = (w', out) ->
  grows not_fetch_mark w w'.
Proof.
  rewrite downloadLayerWithRetry_unfold.
  assert (forall v, authThenFetch registry json_DecodeToken url dest size dig fuel ref v
                    = (w', out) -> grows not_fetch_mark v w') as Hfetch.
  { unfold authThenFetch. intros v.
    destruct (authToken _ _ _ _) as [w1 [tok err]] eqn:Ha.
    apply authToken_frame in Ha as [Ha _].
    assert (grows not_fetch_mark v w1)
      by (eapply grows_impl; [| exact Ha]; intros [[] ?| | | | | | | |]; done).
    destruct (is_nil err); intros Hrun; [| by simplify_eq].
    eapply grows_trans; [done |].
    apply fetchLoop_grows in Hrun. eapply grows_impl; [| exact Hrun].
    intros [[] ?| | | | | | | |]; done. }
  case_decide; [case_decide; [destruct (is_nil _) |] |]; intros Hrun; eauto.
  - injection Hrun as <- _. apply grows_refl.
  - eapply grows_trans; [by apply os_Remove_grows | eauto].
  - injection Hrun as <- _. apply grows_refl.
Qed.

Lemma fetchLayer_marks fuel options imageRef outputDir layer w w' :
  fetchLayer registry json_DecodeToken name_ParseReference fuel options imageRef outputDir
    layer w = (w', Returned err_nil) ->
  exists evs, trace w' = trace w ++ evs /\ fetched evs = [layer_digest layer].
Proof.
  unfold fetchLayer, layer_digest.
  destruct (layer_Digest layer) as [digest err]. destruct (is_nil err); [| done].
  destruct (match options with Some _ => _ | None => _ end) as [layerSize err'].
  destruct (is_nil err'); [| done].
  destruct (name_ParseReference imageRef) as [info err'']. destruct (is_nil err''); [| done].
  destruct (downloadLayerWithRetry _ _ _ _ _ _ _ _ _) as [w2 o] eqn:Hd.
  apply downloadLayerWithRetry_no_mark in Hd as (evs & T & F).
  destruct o as [|e]; [done |]. destruct (is_nil e); [| done]. intros [= <-].
  eexists. split; [rewrite T; simpl; by rewrite <- app_assoc |].
  simpl. rewrite fetched_none by done. done.
Qed.

(** When the second loop returns success, [downloadLayerWithRetry] has been
    called for every layer of the list, in order. *)
Lemma fetchLayers_marks fuel options imageRef outputDir layers : forall w w',
  fetchLayers registry json_DecodeToken name_ParseReference fuel options imageRef outputDir
    layers w = (w', Returned err_nil) ->
  exists evs, trace w' = trace w ++ evs /\ fetched evs = map layer_digest layers.
Proof.
  induction layers as [|layer layers IH]; simpl; intros w w' H.
  - simplify_eq. exists []. by rewrite app_nil_r.
  - destruct (fetchLayer _ _ _ _ _ _ _ _ _) as [w1 o] eqn:Hl.
    destruct o as [|e]; [done |]. destruct (is_nil e) eqn:He; [| by simplify_eq].
    apply is_nil_true in He as ->.
    apply fetchLayer_marks in Hl as (e1 & T1 & F1).
    apply IH in H as (e2 & T2 & F2).
    exists (e1 ++ e2). rewrite T2, T1, app_assoc, fetched_app, F1, F2. done.
Qed.

(** What a successful [streamDockerFormatWithReturn] has done. *)
Lemma streamDockerFormatWithReturn_success fuel img layers configFile imageRef wantOut
    options outputDir w w' outs :
  streamDockerFormatWithReturn registry json_DecodeToken ConfigFile json_MarshalConfig
    json_MarshalManifest json_MarshalRepositories name_ParseReference fuel img layers
    configFile imageRef wantOut options outputDir w = (w', Returned err_nil, outs) ->
  exists configDigest,
    let entry := singleManifest configDigest imageRef (map layer_digest layers) in
    let repos := repositories configDigest imageRef in
    img_ConfigName ConfigFile img = (configDigest, err_nil)
    /\ fetched (events_since w w') = map layer_digest layers
    /\ (wantOut = true -> outs = Some (entry, repos))
    /\ (wantOut = false ->
        files w' !! (outputDir +:+ "/manifest.json")
        = Some (fst (json_MarshalManifest [entry]))
        /\ files w' !! (outputDir +:+ "/repositories")
           = Some (fst (json_MarshalRepositories repos))).
Proof.
  unfold streamDockerFormatWithReturn.
  destruct (img_ConfigName ConfigFile img) as [configDigest err] eqn:Hc.
  destruct (is_nil err) eqn:He; [| done]. apply is_nil_true in He as ->.
  destruct (json_MarshalConfig configFile) as [configData err].
  destruct (is_nil err); [| done].
  destruct (collectDigests layers) as [ds err'] eqn:Hds.
  destruct (is_nil err') eqn:He'; [| intros; by simplify_eq].
  apply is_nil_true in He' as ->. apply collectDigests_ok in Hds as ->.
  destruct (fetchLayers _ _ _ _ _ _ _ _ _) as [w2 o] eqn:Hl.
  destruct o as [|e]; [done |]. destruct (is_nil e) eqn:Hn; [| intros; by simplify_eq].
  apply is_nil_true in Hn as ->.
  apply fetchLayers_marks in Hl as (evs & T & F). simpl in T.
  set (configPath := outputDir +:+ "/" +:+ Hash_String configDigest +:+ ".json") in *.
  assert (forall v a, trace v = trace w2 ++ a -> Forall not_fetch_mark a ->
                      fetched (events_since w v) = map layer_digest layers) as Hev.
  { intros v a Hv Ha.
    rewrite (events_since_app w v (([EvWriteFile configPath] ++ evs) ++ a)).
    - rewrite !fetched_app, F, (fetched_none a) by done. by rewrite app_nil_r.
    - rewrite Hv, T, <- !app_assoc. done. }
  destruct wantOut.
  - intros [= <- <-]. exists configDigest. cbv zeta. repeat split; auto; try done.
    apply (Hev w2 []); [by rewrite app_nil_r | constructor].
  - destruct (json_MarshalManifest _) as [manifestData em] eqn:Hm.
    destruct (is_nil em); [| done].
    destruct (json_MarshalRepositories _) as [reposData er] eqn:Hr.
    destruct (is_nil er); [| done]. intros [= <- <-].
    exists configDigest. cbv zeta. rewrite Hm, Hr.
    repeat split; auto; try done.
    + eapply Hev; [simpl; rewrite <- app_assoc; done |]. repeat constructor.
    + simpl. rewrite lookup_insert_ne.
      * by rewrite lookup_insert_eq.
      * intros Heq. apply string_app_inv_head in Heq. discriminate.
    + simpl. by rewrite lookup_insert_eq.
Qed.

Lemma singleManifest_Layers configDigest imageRef ds :
  singleManifest configDigest imageRef ds !! "Layers"
  = Some (VStrings (map (fun digest => digest +:+ ".tar") ds)).
Proof.
  unfold singleManifest.
  rewrite lookup_insert_ne by done. rewrite lookup_insert_ne by done.
  by rewrite lookup_singleton_eq.
Qed.

Lemma singleManifest_RepoTags configDigest imageRef ds :
  singleManifest configDigest imageRef ds !! "RepoTags" = Some (VStrings [imageRef]).
Proof.
  unfold singleManifest. rewrite lookup_insert_ne by done. by rewrite lookup_insert_eq.
Qed.

Lemma streamImageLayers_success fuel img existLayers outputDir options imageRef w w' :
  streamImageLayers registry json_DecodeToken ConfigFile json_MarshalConfig
    json_MarshalManifest json_MarshalRepositories name_ParseReference fuel img existLayers
    outputDir options imageRef w = (w', Returned err_nil) ->
  exists layers configFile outs,
    img_Layers ConfigFile img = (layers, err_nil)
    /\ streamDockerFormatWithReturn registry json_DecodeToken ConfigFile json_MarshalConfig
         json_MarshalManifest json_MarshalRepositories name_ParseReference fuel img layers
         configFile imageRef false options outputDir w = (w', Returned err_nil, outs).
Proof.
  unfold streamImageLayers.
  destruct (img_ConfigFile ConfigFile img) as [configFile err].
  destruct (is_nil err); [| done].
  destruct (img_Layers ConfigFile img) as [layers err'].
  destruct (is_nil err') eqn:He; [| done]. apply is_nil_true in He as ->.
  destruct (streamDockerFormatWithReturn _ _ _ _ _ _ _ _ _ _ _ _ _ _ _ _) as [[w2 o] outs] eqn:Hs.
  simpl. intros [= -> ->]. by exists layers, configFile, outs.
Qed.

(** C1.  Whenever an export succeeds, the manifest entry written to
    manifest.json lists one layer file per layer of the image, in the order
    of the image: its Layers list is as long as the full layer list,
    whatever digests the host is known to have ([existLayers]) and whatever
    was already on disk. *)
Theorem manifest_lists_every_layer fuel img existLayers outputDir options imageRef w w' :
  streamImageLayers registry json_DecodeToken ConfigFile json_MarshalConfig
    json_MarshalManifest json_MarshalRepositories name_ParseReference fuel img existLayers
    outputDir options imageRef w = (w', Returned err_nil) ->
  exists layers entry manifestLayers,
    img_Layers ConfigFile img = (layers, err_nil)
    /\ files w' !! (outputDir +:+ "/manifest.json") = Some (fst (json_MarshalManifest [entry]))
    /\ entry !! "Layers" = Some (VStrings manifestLayers)
    /\ manifestLayers = map (fun layer => layer_digest layer +:+ ".tar") layers
    /\ length manifestLayers = length layers.
Proof.
  intros H. apply streamImageLayers_success in H as (layers & configFile & outs & Hl & H).
  apply streamDockerFormatWithReturn_success in H as (configDigest & _ & _ & _ & Hfiles).
  destruct (Hfiles eq_refl) as [Hm _].
  exists layers, (singleManifest configDigest imageRef (map layer_digest layers)),
         (map (fun layer => layer_digest layer +:+ ".tar") layers).
  repeat split; auto.
  - rewrite singleManifest_Layers. by rewrite map_map.
  - by rewrite length_map.
Qed.

(** C4 (amended).  Whenever an export succeeds, the full ordered layer list
    is what the manifest is built from, and [downloadLayerWithRetry] has
    been called for every layer of that list, in the original order,
    whatever digests the host is known to have: the list to fetch is the
    full list, of the same length. *)
Theorem every_layer_is_fetched fuel img existLayers outputDir options imageRef w w' :
  streamImageLayers registry json_DecodeToken ConfigFile json_MarshalConfig
    json_MarshalManifest json_MarshalRepositories name_ParseReference fuel img existLayers
    outputDir options imageRef w = (w', Returned err_nil) ->
  exists layers entry,
    img_Layers ConfigFile img = (layers, err_nil)
    /\ files w' !! (outputDir +:+ "/manifest.json") = Some (fst (json_MarshalManifest [entry]))
    /\ entry !! "Layers"
       = Some (VStrings (map (fun layer => layer_digest layer +:+ ".tar") layers))
    /\ fetched (events_since w w') = map layer_digest layers
    /\ length (fetched (events_since w w')) = length layers.
Proof.
  intros H. apply streamImageLayers_success in H as (layers & configFile & outs & Hl & H).
  apply streamDockerFormatWithReturn_success in H as (configDigest & _ & Hf & _ & Hfiles).
  destruct (Hfiles eq_refl) as [Hm _].
  exists layers, (singleManifest configDigest imageRef (map layer_digest layers)).
  repeat split; auto.
  - rewrite singleManifest_Layers. by rewrite map_map.
  - by rewrite Hf, length_map.
Qed.

End BuilderProperties.

(** C1, witness: the layer "xyz" is on disk already, the layer "abc" is
    fetched although the host is known to have it; the manifest lists both. *)
Lemma manifest_lists_every_layer_witness :
  let w := world_of [(dest_xyz, blob_xyz)] in
  let r := export_app [answer 200 []; answer 200 blob_abc] [Hex (hash_of blob_abc)] w in
  snd r = Returned err_nil
  /\ exists layers entry manifestLayers,
       img_Layers (list byte) image_app = (layers, err_nil)
       /\ files (fst r) !! "output/manifest.json" = Some (fst (marshal_manifest [entry]))
       /\ entry !! "Layers" = Some (VStrings manifestLayers)
       /\ manifestLayers = map (fun layer => layer_digest layer +:+ ".tar") layers
       /\ length manifestLayers = length layers.
Proof.
  intros w r. assert (snd r = Returned err_nil) as Hr by (vm_compute; reflexivity).
  split; [exact Hr |].
  apply (manifest_lists_every_layer (script [answer 200 []; answer 200 blob_abc]) no_token
           (list byte) (fun c => (c, err_nil)) marshal_manifest marshal_repositories parse_app
           4 image_app [Hex (hash_of blob_abc)] "output" options_app name_app w (fst r)).
  rewrite <- Hr. apply surjective_pairing.
Defined.

(** C4, counterexample: the host is known to have the layer "abc"; the
    to-download subset of the specification is the layer "xyz" alone, but
    the export requests and fetches both layers from the registry. *)
Lemma known_layer_is_fetched_anyway :
  let layers := [layer_of blob_abc; layer_of blob_xyz] in
  let known := [Hex (hash_of blob_abc)] in
  let r := export_app [answer 200 []; answer 200 blob_abc; answer 200 []; answer 200 blob_xyz]
             known (world_of []) in
  map layer_digest (toDownload_spec layers known) = [digest_xyz]
  /\ snd r = Returned err_nil
  /\ fetched (trace (fst r)) = [digest_abc; digest_xyz]
  /\ map URL (blob_gets (trace (fst r)))
     = [url_abc; "https://registry.example/v2/library/app/blobs/" +:+ digest_xyz].
Proof. by_evaluation. Qed.

(** C4, witness: the same export; both layers are fetched, in order. *)
Lemma every_layer_is_fetched_witness :
  let w := world_of [] in
  let r := export_app [answer 200 []; answer 200 blob_abc; answer 200 []; answer 200 blob_xyz]
             [Hex (hash_of blob_abc)] w in
  snd r = Returned err_nil
  /\ exists layers entry,
       img_Layers (list byte) image_app = (layers, err_nil)
       /\ files (fst r) !! "output/manifest.json" = Some (fst (marshal_manifest [entry]))
       /\ entry !! "Layers"
          = Some (VStrings (map (fun layer => layer_digest layer +:+ ".tar") layers))
       /\ fetched (events_since w (fst r)) = map layer_digest layers
       /\ length (fetched (events_since w (fst r))) = length layers.
Proof.
  intros w r. assert (snd r = Returned err_nil) as Hr by (vm_compute; reflexivity).
  split; [exact Hr |].
  apply (every_layer_is_fetched
           (script [answer 200 []; answer 200 blob_abc; answer 200 []; answer 200 blob_xyz])
           no_token (list byte) (fun c => (c, err_nil)) marshal_manifest marshal_repositories
           parse_app 4 image_app [Hex (hash_of blob_abc)] "output" options_app name_app w (fst r)).
  rewrite <- Hr. apply surjective_pairing.
Defined.

(** *** Repository name and tag *)

Lemma LastIndex_from_absent s c i :
  ~ occurs c s -> GoStrings.LastIndex_from i s c = -1.
Proof.
  revert i. induction s as [|x s IH]; simpl; intros i Hs; [done |].
  rewrite IH by tauto. rewrite decide_True by done. by rewrite decide_False by tauto.
Qed.

Lemma LastIndex_from_last repo tag c i :
  0 <= i -> ~ occurs c tag ->
  GoStrings.LastIndex_from i (repo +:+ String c tag) c = i + Z.of_nat (String.length repo).
Proof.
  revert i. induction repo as [|x repo IH]; simpl String.length; intros i Hi Htag.
  - simpl. rewrite LastIndex_from_absent by done.
    rewrite decide_True by done. rewrite decide_True by done. lia.
  - change (String x repo +:+ String c tag) with (String x (repo +:+ String c tag)).
    cbn [GoStrings.LastIndex_from]. rewrite IH by (done || lia).
    rewrite decide_False by lia. lia.
Qed.

Lemma substring_prefix a b : String.substring 0 (String.length a) (a +:+ b) = a.
Proof. induction a as [|x a IH]; simpl; [by destruct b | by rewrite IH]. Qed.

Lemma substring_whole s : String.substring 0 (String.length s) s = s.
Proof. induction s as [|x s IH]; simpl; [done | by rewrite IH]. Qed.

Lemma substring_after_separator a c b :
  String.substring (S (String.length a))
    (String.length (a +:+ String c b) - S (String.length a)) (a +:+ String c b) = b.
Proof.
  induction a as [|x a IH]; simpl.
  - rewrite Nat.sub_0_r. apply substring_whole.
  - apply IH.
Qed.

(** A reference with a colon is cut at its last colon. *)
Lemma repositories_split_at_last_colon configDigest repo tag :
  ~ occurs ":" tag ->
  repositories configDigest (repo +:+ ":" +:+ tag)
  = {[ repo := {[ tag := Hash_String configDigest ]} ]}.
Proof.
  intros Htag. unfold repositories, GoStrings.LastIndex.
  change (repo +:+ ":" +:+ tag) with (repo +:+ String ":" tag).
  rewrite LastIndex_from_last by (done || lia).
  rewrite decide_True by lia.
  unfold GoStrings.slice_to, GoStrings.slice_from.
  replace (Z.to_nat (0 + Z.of_nat (String.length repo))) with (String.length repo) by lia.
  rewrite substring_prefix.
  replace (Z.to_nat (0 + Z.of_nat (String.length repo) + 1))
    with (S (String.length repo)) by lia.
  by rewrite substring_after_separator.
Qed.

(** A reference without a colon gets no entry at all. *)
Lemma repositories_without_colon configDigest imageRef :
  ~ occurs ":" imageRef -> repositories configDigest imageRef = ∅.
Proof.
  intros Hno. unfold repositories, GoStrings.LastIndex.
  rewrite LastIndex_from_absent by done. by rewrite decide_False by lia.
Qed.

(** C10.  The manifest builder on three references.  With a tag, the
    reference is cut at its last colon and RepoTags holds the reference as
    given.  Without a tag, no entry is added to [repositories]: the tag
    does not default to "latest" (as it does in the cache prototype's
    writeMetadata); and a registry port is taken for the separator. *)
Theorem repositories_of_reference (configDigest : Hash) (layerDigests : list string) :
  repositories configDigest "repo/name:v1"
  = {[ "repo/name" := {[ "v1" := Hash_String configDigest ]} ]}
  /\ singleManifest configDigest "repo/name:v1" layerDigests !! "RepoTags"
     = Some (VStrings ["repo/name:v1"])
  /\ repositories configDigest "repo/name" = ∅
  /\ repositories configDigest "localhost:5000/name"
     = {[ "localhost" := {[ "5000/name" := Hash_String configDigest ]} ]}
  /\ Prototype.writeMetadata_repositories (Hash_String configDigest) "repo/name"
     = {[ "repo/name" := {[ "latest" := Hash_String configDigest ]} ]}.
Proof.
  split; [apply (repositories_split_at_last_colon _ "repo/name" "v1");
          simpl; intuition discriminate |].
  split; [apply singleManifest_RepoTags |].
  split; [apply repositories_without_colon; simpl; intuition discriminate |].
  split; [apply (repositories_split_at_last_colon _ "localhost" "5000/name");
          simpl; intuition discriminate |].
  reflexivity.
Qed.

(** The first prototype built the manifest from the filtered list: as soon
    as the host knows one layer, the manifest is shorter than the image. *)
Lemma prototype_manifest_from_filtered_list layers existLayers :
  length (Prototype.manifestLayers layers existLayers)
  = length (toDownload_spec layers existLayers)
  /\ (length (Prototype.manifestLayers layers existLayers) <= length layers)%nat.
Proof.
  unfold Prototype.manifestLayers, Prototype.filterLayers, toDownload_spec.
  rewrite length_map. split; [done | apply List.filter_length_le].
Qed.

(** ** The archive assembler *)

Lemma wrote_nothing tw w : wrote tw [] w w.
Proof. split; [done |]. intros old ->. by rewrite app_nil_r. Qed.

Lemma wrote_trans tw e1 e2 w1 w2 w3 :
  wrote tw e1 w1 w2 -> wrote tw e2 w2 w3 -> wrote tw (e1 ++ e2) w1 w3.
Proof.
  intros [F1 T1] [F2 T2]. split; [congruence |].
  intros old Hold. rewrite app_assoc. auto.
Qed.

Lemma tar_entry_files w w' filePath nameInTar :
  files w' = files w -> tar_entry w' filePath nameInTar = tar_entry w filePath nameInTar.
Proof. unfold tar_entry. by intros ->. Qed.

Lemma addFileToTar_present tw filePath nameInTar w data :
  files w !! filePath = Some data ->
  exists w', addFileToTar tw filePath nameInTar w = (w', err_nil)
             /\ wrote tw [tar_entry w filePath nameInTar] w w'.
Proof.
  intros Hf. unfold addFileToTar, tar_entry. rewrite Hf. eexists. split; [done |].
  split; [done |]. intros old Hold. simpl. rewrite Hold. simpl. by rewrite lookup_insert_eq.
Qed.

Lemma addFileToTar_missing tw filePath nameInTar w :
  files w !! filePath = None ->
  exists e, addFileToTar tw filePath nameInTar w = (w, e) /\ e <> err_nil.
Proof. intros Hf. unfold addFileToTar. rewrite Hf. eexists. split; done. Qed.

Section AssemblerProperties.

Variable json_UnmarshalManifest : list byte -> list (gmap string Value) * error.
Variable filepath_Join : string -> string -> string.
Variables (tw outputDir : string).

Local Abbreviation present_here := (present filepath_Join outputDir).
Local Abbreviation missing_here := (missing filepath_Join outputDir).
Local Abbreviation entries_here := (entries_of filepath_Join outputDir).

Lemma present_files w w' name : files w' = files w -> present_here w name -> present_here w' name.
Proof. unfold present. by intros ->. Qed.

Lemma missing_files w w' name : files w' = files w -> missing_here w name -> missing_here w' name.
Proof. unfold missing. by intros ->. Qed.

Lemma entries_of_files w w' names : files w' = files w -> entries_here w' names = entries_here w names.
Proof.
  intros Hf. unfold entries_of. apply map_ext. intros name.
  by apply tar_entry_files.
Qed.

Lemma present_or_missing w name : present_here w name \/ missing_here w name.
Proof.
  unfold present, missing.
  destruct (files w !! filepath_Join outputDir name); eauto.
Qed.

Lemma addLayers_present layers : forall w,
  Forall (present_here w) (string_refs layers) ->
  exists w', addLayers filepath_Join tw outputDir layers w = (w', err_nil)
             /\ wrote tw (entries_here w (string_refs layers)) w w'.
Proof.
  induction layers as [|v layers IH]; intros w Hall.
  - exists w. split; [done | apply wrote_nothing].
  - destruct v as [| | |s| | |]; simpl in *; try (by apply IH).
    apply Forall_cons in Hall as [[data Hs] Hall].
    destruct (addFileToTar_present tw _ s w data Hs) as (w1 & -> & Hw1). simpl.
    destruct (IH w1) as (w' & -> & Hw').
    { eapply Forall_impl; [exact Hall |]. intros name. apply present_files, Hw1. }
    exists w'. split; [done |].
    rewrite (entries_of_files w w1) in Hw' by apply Hw1.
    apply (wrote_trans tw [_] _ w w1 w' Hw1 Hw').
Qed.

Lemma addLayers_missing layers : forall w,
  Exists (missing_here w) (string_refs layers) ->
  exists w' e, addLayers filepath_Join tw outputDir layers w = (w', e)
               /\ code_of e = Some ErrCodeTarAssembly.
Proof.
  induction layers as [|v layers IH]; intros w Hex.
  - by apply Exists_nil in Hex.
  - destruct v as [| | |s| | |]; simpl in *; try (by apply IH).
    destruct (files w !! filepath_Join outputDir s) as [data|] eqn:Hs.
    + destruct (addFileToTar_present tw _ s w data Hs) as (w1 & -> & Hw1). simpl.
      apply IH. apply Exists_cons in Hex as [Hm | Hex].
      * unfold missing in Hm. congruence.
      * eapply Exists_impl; [exact Hex |]. intros name. apply missing_files, Hw1.
    + destruct (addFileToTar_missing tw _ s w Hs) as (e & -> & He).
      destruct (is_nil e) eqn:Hn; [by apply is_nil_true in Hn |]. eauto.
Qed.

Lemma addImage_present m w :
  Forall (present_here w) (image_refs m) ->
  exists w', addImage filepath_Join tw outputDir m w = (w', err_nil)
             /\ wrote tw (entries_here w (image_refs m)) w w'.
Proof.
  unfold image_refs, config_refs, layer_refs, addImage. intros Hall.
  apply Forall_app in Hall as [Hc Hl].
  assert (forall w1, files w1 = files w ->
            exists w', match m !! "Layers" with
                       | Some (VSlice layers) => addLayers filepath_Join tw outputDir layers w1
                       | _ => (w1, err_nil)
                       end = (w', err_nil)
                       /\ wrote tw (entries_here w match m !! "Layers" with
                                                 | Some (VSlice layers) => string_refs layers
                                                 | _ => []
                                                 end) w1 w') as Hlayers.
  { intros w1 Hf. destruct (m !! "Layers") as [[| | | | |layers|]|];
      try (exists w1; split; [done | apply wrote_nothing]).
    destruct (addLayers_present layers w1) as (w' & Hrun & Hw').
    - eapply Forall_impl; [exact Hl |]. intros name. by apply present_files.
    - exists w'. split; [done |]. by rewrite <- (entries_of_files w w1). }
  destruct (m !! "Config") as [[| | |config| | |]|]; try (simpl; by apply Hlayers).
  apply Forall_cons in Hc as [[data Hs] _].
  destruct (addFileToTar_present tw _ config w data Hs) as (w1 & -> & Hw1). simpl.
  destruct (Hlayers w1) as (w' & -> & Hw'); [apply Hw1 |].
  exists w'. split; [done |]. apply (wrote_trans tw [_] _ w w1 w' Hw1 Hw').
Qed.

Lemma addImage_missing m w :
  Exists (missing_here w) (image_refs m) ->
  exists w' e, addImage filepath_Join tw outputDir m w = (w', e)
               /\ code_of e = Some ErrCodeTarAssembly.
Proof.
  unfold image_refs, config_refs, layer_refs, addImage. intros Hex.
  assert (forall w1, files w1 = files w ->
            Exists (missing_here w) match m !! "Layers" with
                               | Some (VSlice layers) => string_refs layers
                               | _ => []
                               end ->
            exists w' e, match m !! "Layers" with
                         | Some (VSlice layers) => addLayers filepath_Join tw outputDir layers w1
                         | _ => (w1, err_nil)
                         end = (w', e)
                         /\ code_of e = Some ErrCodeTarAssembly) as Hlayers.
  { intros w1 Hf Hm. destruct (m !! "Layers") as [[| | | | |layers|]|];
      try (by apply Exists_nil in Hm).
    apply addLayers_missing. eapply Exists_impl; [exact Hm |].
    intros name. by apply missing_files. }
  destruct (m !! "Config") as [[| | |config| | |]|]; try (simpl in *; by apply Hlayers).
  apply Exists_app in Hex as [Hc | Hl].
  - apply Exists_cons in Hc as [Hc | Hc]; [| by apply Exists_nil in Hc].
    destruct (addFileToTar_missing tw _ config w Hc) as (e & -> & He).
    destruct (is_nil e) eqn:Hn; [by apply is_nil_true in Hn |]. simpl. eauto.
  - destruct (files w !! filepath_Join outputDir config) as [data|] eqn:Hs.
    + destruct (addFileToTar_present tw _ config w data Hs) as (w1 & -> & Hw1). simpl.
      apply Hlayers; [apply Hw1 | done].
    + destruct (addFileToTar_missing tw _ config w Hs) as (e & -> & He).
      destruct (is_nil e) eqn:Hn; [by apply is_nil_true in Hn |]. simpl. eauto.
Qed.

Lemma addImages_present manifest : forall w,
  Forall (present_here w) (flat_map image_refs manifest) ->
  exists w', addImages filepath_Join tw outputDir manifest w = (w', err_nil)
             /\ wrote tw (entries_here w (flat_map image_refs manifest)) w w'.
Proof.
  induction manifest as [|m manifest IH]; intros w Hall; simpl in *.
  - exists w. split; [done | apply wrote_nothing].
  - apply Forall_app in Hall as [Hm Hrest].
    destruct (addImage_present m w Hm) as (w1 & -> & Hw1). simpl.
    destruct (IH w1) as (w' & -> & Hw').
    { eapply Forall_impl; [exact Hrest |]. intros name. apply present_files, Hw1. }
    exists w'. split; [done |].
    rewrite (entries_of_files w w1) in Hw' by apply Hw1.
    unfold entries_of in *. rewrite map_app.
    apply (wrote_trans tw _ _ w w1 w' Hw1 Hw').
Qed.

Lemma addImages_missing manifest : forall w,
  Exists (missing_here w) (flat_map image_refs manifest) ->
  exists w' e, addImages filepath_Join tw outputDir manifest w = (w', e)
               /\ code_of e = Some ErrCodeTarAssembly.
Proof.
  induction manifest as [|m manifest IH]; intros w Hex; simpl in *.
  - by apply Exists_nil in Hex.
  - destruct (Forall_Exists_dec (present_here w) (fun name => ~ present_here w name)
                (fun name => match files w !! filepath_Join outputDir name as o
                                   return {is_Some o} + {~ is_Some o} with
                             | Some x => left (ex_intro _ x eq_refl)
                             | None => right (fun H => is_Some_None H)
                             end)
                (image_refs m)) as [Hall | Hsome].
    + destruct (addImage_present m w Hall) as (w1 & -> & Hw1). simpl.
      apply IH. apply Exists_app in Hex as [Hm | Hrest].
      * exfalso. apply Exists_exists in Hm as (name & Hin & Hmiss).
        rewrite Forall_forall in Hall. destruct (Hall name Hin) as [x Hx].
        unfold missing in Hmiss. congruence.
      * eapply Exists_impl; [exact Hrest |]. intros name. apply missing_files, Hw1.
    + destruct (addImage_missing m w) as (w' & e & -> & He).
      { eapply Exists_impl; [exact Hsome |]. intros name Hn.
        destruct (present_or_missing w name); [done | done]. }
      destruct (is_nil e) eqn:Hn; [apply is_nil_true in Hn; by subst |]. eauto.
Qed.

Lemma layer_refs_among_image_refs (P : string -> Prop) manifest :
  Exists P (flat_map layer_refs manifest) -> Exists P (flat_map image_refs manifest).
Proof.
  induction manifest as [|m manifest IH]; simpl; [done |].
  intros H. apply Exists_app in H as [H | H]; apply Exists_app.
  - left. unfold image_refs. apply Exists_app. by right.
  - right. by apply IH.
Qed.

Lemma tar_Create_empty w : tars (tar_Create tw w) !! tw = Some [].
Proof. unfold tar_Create. simpl. by rewrite lookup_insert_eq. Qed.

(** C2 (amended).  Given a readable, non-empty manifest: when it refers to
    a layer file that is absent from the output directory, assembleImageTar
    does not skip it but fails with a tar-assembly error; when every
    configuration and layer file it refers to is present, assembly succeeds
    and the archive holds manifest.json, the repositories file if there is
    one, and then the configuration and the layers of every image, in the
    order of the manifest. *)
Theorem assembleImageTar_needs_every_layer w manifestData manifest :
  files w !! filepath_Join outputDir "manifest.json" = Some manifestData ->
  json_UnmarshalManifest manifestData = (manifest, err_nil) ->
  manifest <> [] ->
  let result := assembleImageTar json_UnmarshalManifest filepath_Join outputDir tw w in
  (Exists (missing_here w) (flat_map layer_refs manifest) ->
   code_of (snd result) = Some ErrCodeTarAssembly)
  /\ (Forall (present_here w) (flat_map image_refs manifest) ->
      snd result = err_nil
      /\ tars (fst result) !! tw
         = Some (tar_entry w (filepath_Join outputDir "manifest.json") "manifest.json"
                 :: repositories_entry filepath_Join outputDir w
                 ++ entries_here w (flat_map image_refs manifest))).
Proof.
  intros Hm Hjson Hne result. subst result. unfold assembleImageTar.
  rewrite Hm, Hjson. simpl is_nil. cbv iota.
  rewrite decide_False by (by destruct manifest).
  set (w0 := tar_Create tw w).
  assert (files w0 = files w) as Hf0 by done.
  destruct (addFileToTar_present tw (filepath_Join outputDir "manifest.json")
              "manifest.json" w0 manifestData) as (w1 & -> & Hf1 & Ht1);
    [by rewrite Hf0 |].
  simpl is_nil. cbv iota.
  specialize (Ht1 [] (tar_Create_empty w)). simpl in Ht1.
  rewrite (tar_entry_files w w0) in Ht1 by done.
  assert (files w1 = files w) as Hfw1 by congruence.
  assert (exists w2,
             match files w1 !! filepath_Join outputDir "repositories" with
             | Some _ =>
                 let '(w2, err) := addFileToTar tw (filepath_Join outputDir "repositories")
                                     "repositories" w1 in
                 if is_nil err then (w2, err_nil)
                 else (w2, WrapError ErrCodeTarAssembly "添加 repositories 到 tar 失败" err)
             | None => (w1, err_nil)
             end = (w2, err_nil)
             /\ files w2 = files w
             /\ tars w2 !! tw
                = Some (tar_entry w (filepath_Join outputDir "manifest.json") "manifest.json"
                        :: repositories_entry filepath_Join outputDir w))
    as (w2 & -> & Hfw2 & Ht2).
  { unfold repositories_entry. rewrite Hfw1.
    destruct (files w !! filepath_Join outputDir "repositories") as [rdata|] eqn:Hr.
    - destruct (addFileToTar_present tw (filepath_Join outputDir "repositories")
                  "repositories" w1 rdata) as (w2 & -> & Hf2 & Htw2); [by rewrite Hfw1 |].
      exists w2. simpl. split; [done |]. split; [congruence |].
      rewrite (Htw2 _ Ht1). by rewrite (tar_entry_files w w1).
    - exists w1. done. }
  simpl is_nil. cbv iota. split.
  - intros Hex. apply layer_refs_among_image_refs in Hex.
    destruct (addImages_missing manifest w2) as (w' & e & -> & He); [| done].
    eapply Exists_impl; [exact Hex |]. intros name. by apply missing_files.
  - intros Hall.
    destruct (addImages_present manifest w2) as (w' & -> & _ & Hw').
    { eapply Forall_impl; [exact Hall |]. intros name. by apply present_files. }
    split; [done |]. simpl. rewrite (Hw' _ Ht2).
    rewrite (entries_of_files w w2) by done. done.
Qed.

End AssemblerProperties.

(** C2, counterexample: the output directory of an export from which the
    file of the layer "xyz" is gone.  The manifest still refers to it;
    assembly does not complete: it returns a tar-assembly error naming the
    layer, after writing the entries that precede it. *)
Lemma missing_layer_aborts_assembly :
  let r := assemble_app exported_without_xyz in
  files exported_without_xyz !! join_app "output" (digest_xyz +:+ ".tar") = None
  /\ layer_refs manifest_app = [digest_abc +:+ ".tar"; digest_xyz +:+ ".tar"]
  /\ code_of (snd r) = Some ErrCodeTarAssembly
  /\ snd r <> err_nil
  /\ map (fun entry => Name (fst entry)) (default [] (tars (fst r) !! "output.tar"))
     = ["manifest.json"; "repositories"; Hash_String (hash_of config_app) +:+ ".json";
        digest_abc +:+ ".tar"].
Proof.
  intros r. split; [vm_compute; reflexivity |]. split; [vm_compute; reflexivity |].
  assert (code_of (snd r) = Some ErrCodeTarAssembly) as Hc by (vm_compute; reflexivity).
  split; [exact Hc |]. split; [by apply (code_of_not_nil _ _ Hc) |].
  vm_compute; reflexivity.
Qed.

(** C2, witness: the same directory with and without the layer file. *)
Lemma assembleImageTar_needs_every_layer_witness :
  (let r := assemble_app exported_without_xyz in
   code_of (snd r) = Some ErrCodeTarAssembly)
  /\ (let r := assemble_app exported_app in
      snd r = err_nil
      /\ map (fun entry => Name (fst entry)) (default [] (tars (fst r) !! "output.tar"))
         = ["manifest.json"; "repositories"; Hash_String (hash_of config_app) +:+ ".json";
            digest_abc +:+ ".tar"; digest_xyz +:+ ".tar"]).
Proof.
  assert (forall w, files w !! join_app "output" "manifest.json"
                    = files exported_app !! join_app "output" "manifest.json" ->
            exists data, files w !! join_app "output" "manifest.json" = Some data
                         /\ unmarshal_app data = ([manifest_app], err_nil)) as Hdoc.
  { intros w ->. eexists. split; vm_compute; reflexivity. }
  split.
  - destruct (Hdoc exported_without_xyz) as (data & Hm & Hj); [vm_compute; reflexivity |].
    refine (proj1 (assembleImageTar_needs_every_layer unmarshal_app join_app "output.tar"
                     "output" exported_without_xyz data [manifest_app] Hm Hj _) _);
      [discriminate |].
    apply Exists_cons. right. apply Exists_cons. left. vm_compute. reflexivity.
  - destruct (Hdoc exported_app) as (data & Hm & Hj); [reflexivity |].
    destruct (proj2 (assembleImageTar_needs_every_layer unmarshal_app join_app "output.tar"
                       "output" exported_app data [manifest_app] Hm Hj ltac:(discriminate)))
      as [Hok _].
    + repeat constructor; vm_compute; eexists; reflexivity.
    + split; [exact Hok | vm_compute; reflexivity].
Defined.
(** ** What a call of the fetcher touches *)

Lemma only_touches_refl dest w : only_touches dest w w.
Proof. by split. Qed.

Lemma only_touches_trans dest w1 w2 w3 :
  only_touches dest w1 w2 -> only_touches dest w2 w3 -> only_touches dest w1 w3.
Proof.
  intros [F1 T1] [F2 T2]. split; [|congruence].
  intros p Hp. rewrite F2, F1; done.
Qed.

Lemma steps_refl P dest w : steps P dest w w.
Proof. split; [apply grows_refl | apply only_touches_refl]. Qed.

Lemma steps_trans P dest w1 w2 w3 :
  steps P dest w1 w2 -> steps P dest w2 w3 -> steps P dest w1 w3.
Proof.
  intros [G1 O1] [G2 O2].
  split; [by eapply grows_trans | by eapply only_touches_trans].
Qed.

Lemma steps_log (P : Event -> Prop) dest e w : P e -> steps P dest w (log e w).
Proof. intros HP. split; [by apply grows_log | by split]. Qed.

Lemma steps_impl (P Q : Event -> Prop) dest w w' :
  (forall e, P e -> Q e) -> steps P dest w w' -> steps Q dest w w'.
Proof. intros HPQ [G O]. split; [by eapply grows_impl | done]. Qed.

Lemma steps_create (P : Event -> Prop) dest data w :
  P (EvCreate dest) -> P (EvAppend dest data) -> steps P dest w (create_file dest data w).
Proof.
  intros Hc Ha. split.
  - exists [EvCreate dest; EvAppend dest data]. split.
    + unfold create_file, log. simpl. by rewrite <- app_assoc.
    + by repeat constructor.
  - split; [|done]. intros p Hp. simpl. by rewrite lookup_insert_ne.
Qed.

Lemma steps_append (P : Event -> Prop) dest data w w' :
  P (EvAppend dest data) -> append_file dest data w = Some w' -> steps P dest w w'.
Proof.
  intros Ha. unfold append_file. destruct (files w !! dest) as [old|]; [|done].
  intros [= <-]. split.
  - by eapply grows_step.
  - split; [|done]. intros p Hp. simpl. by rewrite lookup_insert_ne.
Qed.

Lemma steps_remove (P : Event -> Prop) dest w :
  P (EvRemove dest) -> steps P dest w (fst (os_Remove dest w)).
Proof.
  intros Hr. unfold os_Remove. destruct (files w !! dest); simpl; [|apply steps_refl].
  split.
  - by eapply grows_step.
  - split; [|done]. intros p Hp. simpl. by rewrite lookup_delete_ne.
Qed.

Lemma steps_cycle_start (P : Event -> Prop) dest size w w1 e :
  P (EvTruncate dest) -> cycle_start dest size w = (w1, e) -> steps P dest w w1.
Proof.
  intros Ht. unfold cycle_start, os_Truncate0. case_decide.
  - destruct (files w !! dest); intros [= <- <-]; [|apply steps_refl].
    split.
    + by eapply grows_step.
    + split; [|done]. intros p Hp. simpl. by rewrite lookup_insert_ne.
  - intros [= <- <-]. apply steps_refl.
Qed.

Section FetcherFrame.

Variable registry : nat -> Request -> option Response.
Variable json_DecodeToken : list byte -> bool -> option string.
Variables (layerURL destPath : string) (size : Z) (expectedDigest token : string).
Variable P : Event -> Prop.
Hypothesis P_get : forall n, P (EvGet BlobClient (blobRequest layerURL token n)).
Hypothesis P_sleep : forall s, P (EvSleep s).
Hypothesis P_cycle : forall n, P (EvCycle n).
Hypothesis P_create : P (EvCreate destPath).
Hypothesis P_append : forall d, P (EvAppend destPath d).
Hypothesis P_remove : P (EvRemove destPath).
Hypothesis P_truncate : P (EvTruncate destPath).

Lemma handleResponse_steps resp retries lastErr w w' e b :
  handleResponse destPath resp retries lastErr w = (w', e, b) ->
  steps P destPath w w'.
Proof using P_sleep P_create P_append.
  unfold handleResponse.
  assert (Hs : forall s v, steps P destPath w v -> steps P destPath w (time_Sleep s v)).
  { intros s v Hv. eapply steps_trans; [exact Hv|]. by apply steps_log. }
  case_decide.
  - destruct (append_file destPath (Body resp) w) as [wa|] eqn:Ha.
    + apply (steps_append P) in Ha; [|apply P_append].
      destruct (BodyErr resp); intros [= <- <- <-]; auto.
    + intros [= <- <- <-]. apply Hs, steps_refl.
  - case_decide.
    + assert (Hc := steps_create P destPath (Body resp) w P_create (P_append _)).
      destruct (BodyErr resp); intros [= <- <- <-]; auto.
    + intros [= <- <- <-]. apply Hs, steps_refl.
Qed.

Lemma retryLoop_steps fuel : forall retries lastErr w w' out,
  retryLoop registry layerURL destPath token fuel retries lastErr w = (w', out) ->
  steps P destPath w w'.
Proof using P_get P_sleep P_create P_append.
  induction fuel as [|fuel IH]; intros retries lastErr w w' out.
  - intros [= <- <-]. apply steps_refl.
  - destruct (decide (retries < maxRetries)) as [Hlt|Hge].
    + rewrite retryLoop_step by done. cbv zeta.
      set (cur := getFileSize w destPath).
      set (retries' := if decide (0 < cur) then retries else retries + 1).
      assert (Hg : steps P destPath w (log (EvGet BlobClient (blobRequest layerURL token cur)) w))
        by apply steps_log, P_get.
      destruct (registry _ _) as [resp|].
      * destruct (handleResponse _ _ _ _ _) as [[w2 e2] b2] eqn:Hh.
        apply handleResponse_steps in Hh.
        destruct b2.
        -- intros [= <- <-]. by eapply steps_trans.
        -- intros Hr. apply IH in Hr.
           eapply steps_trans; [exact Hg|]. by eapply steps_trans.
      * intros Hr. apply IH in Hr.
        eapply steps_trans; [exact Hg|].
        eapply steps_trans; [|exact Hr]. by apply steps_log.
    + rewrite retryLoop_done by done. intros [= <- <-]. apply steps_refl.
Qed.

Lemma fetchLoop_steps fuel : forall w w' out,
  fetchLoop registry layerURL destPath size expectedDigest token fuel w = (w', out) ->
  steps P destPath w w'.
Proof using P_get P_sleep P_cycle P_create P_append P_remove P_truncate.
  induction fuel as [|fuel IH]; intros w w' out.
  - intros [= <- <-]. apply steps_refl.
  - rewrite fetchLoop_unfold. case_decide.
    + destruct (is_nil _).
      * intros [= <- <-]. apply steps_refl.
      * intros Hr. apply IH in Hr.
        eapply steps_trans; [|exact Hr]. by apply steps_remove.
    + destruct (cycle_start destPath size w) as [w1 te] eqn:Hc.
      apply (steps_cycle_start P) in Hc; [|done].
      destruct (is_nil te).
      * destruct (retryLoop _ _ _ _ _ _ _ _) as [w2 [|[[] lastErr]]] eqn:Hr;
          apply retryLoop_steps in Hr;
          (assert (H12 : steps P destPath w w2);
           [eapply steps_trans; [exact Hc|];
            eapply steps_trans; [|exact Hr]; by apply steps_log|]).
        -- by intros [= <- <-].
        -- intros Hf. apply IH in Hf. by eapply steps_trans.
        -- by intros [= <- <-].
      * by intros [= <- <-].
Qed.

End FetcherFrame.
(** ** More of [downloadLayerWithRetry] *)

Lemma blob_gets_app evs1 evs2 : blob_gets (evs1 ++ evs2) = blob_gets evs1 ++ blob_gets evs2.
Proof. unfold blob_gets. apply omap_app. Qed.

Lemma blob_gets_auth evs : Forall auth_event evs -> blob_gets evs = [].
Proof.
  induction 1 as [|e evs He _ IH]; [done|].
  destruct e as [[] r| | | | | | | |]; simpl in *; try done.
Qed.

Section FetcherExtras.

Variable registry : nat -> Request -> option Response.
Variable json_DecodeToken : list byte -> bool -> option string.
Variables (layerURL destPath : string) (size : Z) (expectedDigest : string).

Lemma authToken_events ref w w1 r :
  authToken registry json_DecodeToken ref w = (w1, r) ->
  exists auth, trace w1 = trace w ++ auth /\ Forall auth_event auth
               /\ (1 <= length auth <= 2)%nat
               /\ files w1 = files w /\ tars w1 = tars w.
Proof.
  unfold authToken, http_Get, http_Do. cbv zeta.
  destruct (registry _ _) as [resp|].
  - case_decide.
    + destruct (registry _ _) as [tresp|].
      * intros Hr.
        exists [EvGet AuthClient (get_request ("https://" +:+ RegistryStr ref +:+ "/v2/"));
                EvGet AuthClient
                  (get_request
                     (default "" (parseAuthHeader (WwwAuthenticate resp) !! "realm")
                      +:+ "?service="
                      +:+ default "" (parseAuthHeader (WwwAuthenticate resp) !! "service")
                      +:+ "&scope="
                      +:+ (if decide (default "" (parseAuthHeader (WwwAuthenticate resp) !! "scope") = "")
                           then "repository:" +:+ RepositoryStr ref +:+ ":pull"
                           else default "" (parseAuthHeader (WwwAuthenticate resp) !! "scope"))))].
        assert (Hw : trace w1 = (trace w ++ [EvGet AuthClient (get_request ("https://" +:+ RegistryStr ref +:+ "/v2/"))])
                       ++ [EvGet AuthClient
                  (get_request
                     (default "" (parseAuthHeader (WwwAuthenticate resp) !! "realm")
                      +:+ "?service="
                      +:+ default "" (parseAuthHeader (WwwAuthenticate resp) !! "service")
                      +:+ "&scope="
                      +:+ (if decide (default "" (parseAuthHeader (WwwAuthenticate resp) !! "scope") = "")
                           then "repository:" +:+ RepositoryStr ref +:+ ":pull"
                           else default "" (parseAuthHeader (WwwAuthenticate resp) !! "scope"))))]
                  /\ files w1 = files w /\ tars w1 = tars w).
        { case_decide; [by injection Hr as <- _|].
          destruct (json_DecodeToken _ _); by injection Hr as <- _. }
        destruct Hw as (Hw & Hf & Ht). rewrite Hw, <- app_assoc.
        split; [done|]. split; [by repeat constructor|]. split; [simpl; lia | done].
      * intros [= <- <-]. eexists. split; [simpl; by rewrite <- app_assoc|].
        split; [by repeat constructor|]. split; [simpl; lia | done].
    + intros Hr. exists [EvGet AuthClient (get_request ("https://" +:+ RegistryStr ref +:+ "/v2/"))].
      assert (w1 = log (EvGet AuthClient (get_request ("https://" +:+ RegistryStr ref +:+ "/v2/"))) w)
        as -> by (case_decide; by injection Hr as <- _).
      split; [done|]. split; [by repeat constructor|]. split; [simpl; lia | done].
  - intros [= <- <-]. eexists. split; [reflexivity|].
    split; [by repeat constructor|]. split; [simpl; lia | done].
Qed.

(** A file that is already complete is accepted as it is. *)
Lemma complete_file_is_not_fetched_again fuel ref data w :
  files w !! destPath = Some data ->
  Z.of_nat (length data) = size ->
  0 < size ->
  expectedDigest = "" \/ digest_of data = expectedDigest ->
  downloadLayerWithRetry registry json_DecodeToken fuel ref layerURL destPath size
    expectedDigest w = (w, Returned err_nil).
Proof.
  intros Hf Hlen Hpos Hd. rewrite downloadLayerWithRetry_unfold.
  rewrite (getFileSize_Some _ _ _ Hf), Hlen.
  rewrite decide_True by lia.
  case_decide as Hne; [|done].
  destruct Hd as [->|Hd]; [done|].
  unfold validateFileIntegrity. rewrite Hf.
  rewrite decide_False; [done|]. intros Hx. by apply Hx.
Qed.

Lemma download_event_steps token fuel w w' out :
  fetchLoop registry layerURL destPath size expectedDigest token fuel w = (w', out) ->
  steps (download_event layerURL token destPath) destPath w w'.
Proof.
  apply (fetchLoop_steps registry layerURL destPath size expectedDigest token
           (download_event layerURL token destPath)); try done.
Qed.

Lemma authThenFetch_shape fuel ref token w w' out :
  snd (authToken registry json_DecodeToken ref w) = (token, err_nil) ->
  authThenFetch registry json_DecodeToken layerURL destPath size expectedDigest fuel ref w
  = (w', out) ->
  (exists auth rest,
      trace w' = trace w ++ auth ++ rest
      /\ Forall auth_event auth /\ (1 <= length auth <= 2)%nat
      /\ Forall (download_event layerURL token destPath) rest)
  /\ only_touches destPath w w'.
Proof.
  unfold authThenFetch.
  destruct (authToken registry json_DecodeToken ref w) as [w1 [tok err]] eqn:Ha.
  simpl. intros [= -> ->]. simpl.
  apply authToken_events in Ha as (auth & Ht & Hauth & Hlen & Hf & Htar).
  intros Hfetch. apply download_event_steps in Hfetch as [(rest & Hr & Hrest) [Hof Hot]].
  split.
  - exists auth, rest. rewrite Hr, Ht, <- app_assoc. done.
  - split; [|congruence]. intros p Hp. rewrite Hof by done. by rewrite Hf.
Qed.

Lemma authThenFetch_refused fuel ref tok err w w' out :
  snd (authToken registry json_DecodeToken ref w) = (tok, err) -> err <> err_nil ->
  authThenFetch registry json_DecodeToken layerURL destPath size expectedDigest fuel ref w
  = (w', out) ->
  out = Returned (WrapError ErrCodeAuthError "认证失败" err)
  /\ (exists auth, trace w' = trace w ++ auth /\ Forall auth_event auth)
  /\ files w' = files w /\ tars w' = tars w.
Proof.
  unfold authThenFetch.
  destruct (authToken registry json_DecodeToken ref w) as [w1 [tok' err']] eqn:Ha.
  simpl. intros [= -> ->] Hne.
  apply authToken_events in Ha as (auth & Ht & Hauth & Hlen & Hf & Htar).
  destruct err; [done | |]; simpl; intros [= <- <-]; eauto 10.
Qed.

Lemma downloadLayerWithRetry_frame fuel ref w w' out :
  downloadLayerWithRetry registry json_DecodeToken fuel ref layerURL destPath size
    expectedDigest w = (w', out) ->
  only_touches destPath w w'.
Proof.
  rewrite downloadLayerWithRetry_unfold.
  assert (Hatf : forall v, authThenFetch registry json_DecodeToken layerURL destPath size
                             expectedDigest fuel ref v = (w', out) -> only_touches destPath v w').
  { intros v Hv.
    destruct (snd (authToken registry json_DecodeToken ref v)) as [tok err] eqn:Hs.
    destruct (is_nil err) eqn:Hn;
      [apply is_nil_true in Hn as -> | assert (Hne : err <> err_nil) by (by intros ->)].
    - apply (authThenFetch_shape _ _ _ _ _ _ Hs) in Hv. by destruct Hv.
    - apply (authThenFetch_refused _ _ _ _ _ _ _ Hs Hne) in Hv as (_ & _ & Hf & Ht).
      split; [|done]. intros p _. by rewrite Hf. }
  case_decide; [|by apply Hatf].
  case_decide.
  - destruct (is_nil _).
    + intros [= <- <-]. apply only_touches_refl.
    + intros Hv. apply Hatf in Hv.
      eapply only_touches_trans; [|exact Hv].
      apply (steps_remove any_event). exact I.
  - intros [= <- <-]. apply only_touches_refl.
Qed.


(** X2.  The fetcher changes no file but the one at its destination, and no
    archive, whether it returns or is still running. *)
Theorem fetcher_touches_only_destination fuel ref w w' out :
  downloadLayerWithRetry registry json_DecodeToken fuel ref layerURL destPath size
    expectedDigest w = (w', out) ->
  (forall p, p <> destPath -> files w' !! p = files w !! p) /\ tars w' = tars w.
Proof. apply downloadLayerWithRetry_frame. Qed.

(** X1.  Fetching again after a success is a no-op: a second call for the
    same blob and destination returns success at once; it sends no request
    and changes nothing. *)
Theorem fetch_again_changes_nothing fuel fuel' ref ref' w w' :
  downloadLayerWithRetry registry json_DecodeToken fuel ref layerURL destPath size
    expectedDigest w = (w', Returned err_nil) ->
  downloadLayerWithRetry registry json_DecodeToken fuel' ref' layerURL destPath size
    expectedDigest w' = (w', Returned err_nil).
Proof.
  rewrite (downloadLayerWithRetry_unfold _ _ _ _ _ _ fuel ref w).
  assert (Hatf : forall v, authThenFetch registry json_DecodeToken layerURL destPath size
                             expectedDigest fuel ref v = (w', Returned err_nil) ->
     downloadLayerWithRetry registry json_DecodeToken fuel' ref' layerURL destPath size
       expectedDigest w' = (w', Returned err_nil)).
  { intros v Hv. apply authThenFetch_success in Hv as [(data & Hd & Hl & Hdig) Hs].
    apply (complete_file_is_not_fetched_again fuel' ref' data); [done | done | done | by right]. }
  case_decide as Hfull; [|by apply Hatf].
  destruct (getFileSize_pos_exists w destPath) as [data Hd]; [lia|].
  rewrite (getFileSize_Some _ _ _ Hd) in Hfull.
  case_decide as Hne.
  - destruct (is_nil _) eqn:Hv; [|by apply Hatf].
    intros [= <-]. apply validate_nil in Hv as (data' & Hd' & Hdig).
    apply (complete_file_is_not_fetched_again fuel' ref' data'); [done | | lia | by right].
    rewrite Hd in Hd'. injection Hd' as <-. lia.
  - intros [= <-].
    apply (complete_file_is_not_fetched_again fuel' ref' data); [done | lia | lia |].
    left. destruct (decide (expectedDigest = "")) as [|Hx]; [done | by destruct Hne].
Qed.

(** X3.  The token handshake runs once, before the first blob request, and
    every blob request of the call goes to [layerURL] with that token. *)
Theorem one_handshake_then_blob_requests fuel ref token w w' out :
  snd (authToken registry json_DecodeToken ref w) = (token, err_nil) ->
  downloadLayerWithRetry registry json_DecodeToken fuel ref layerURL destPath size
    expectedDigest w = (w', out) ->
  w' = w
  \/ exists pre auth rest,
       events_since w w' = pre ++ auth ++ rest
       /\ (pre = [] \/ pre = [EvRemove destPath])
       /\ Forall auth_event auth /\ (1 <= length auth <= 2)%nat
       /\ Forall (download_event layerURL token destPath) rest.
Proof.
  intros Hs. rewrite downloadLayerWithRetry_unfold.
  assert (Hatf : forall v, requests_made v = requests_made w ->
     authThenFetch registry json_DecodeToken layerURL destPath size expectedDigest fuel ref v
     = (w', out) ->
     exists auth rest, trace w' = trace v ++ auth ++ rest
       /\ Forall auth_event auth /\ (1 <= length auth <= 2)%nat
       /\ Forall (download_event layerURL token destPath) rest).
  { intros v Hreq Hv.
    assert (Hsv : snd (authToken registry json_DecodeToken ref v) = (token, err_nil))
      by (by rewrite (authToken_result _ _ _ v w Hreq)).
    revert Hv. unfold authThenFetch.
    destruct (authToken registry json_DecodeToken ref v) as [v1 [tok err]] eqn:Ha.
    simpl in Hsv. injection Hsv as -> ->. simpl.
    apply authToken_events in Ha as (auth & Ht & Hauth & Hlen & _).
    intros Hfetch. apply download_event_steps in Hfetch as [(rest & Hr & Hrest) _].
    exists auth, rest. rewrite Hr, Ht, <- app_assoc. done. }
  case_decide as Hfull.
  - case_decide.
    + destruct (is_nil _).
      * intros [= <- <-]. by left.
      * intros Hv. right.
        destruct (getFileSize_pos_exists w destPath) as [data Hd]; [lia|].
        assert (Hrm : trace (fst (os_Remove destPath w)) = trace w ++ [EvRemove destPath])
          by (unfold os_Remove; by rewrite Hd).
        apply Hatf in Hv as (auth & rest & Ht & ?); [|apply requests_made_remove].
        exists [EvRemove destPath], auth, rest.
        split; [|by eauto].
        apply events_since_app. rewrite Ht, Hrm, <- app_assoc. done.
    + intros [= <- <-]. by left.
  - intros Hv. right. apply Hatf in Hv as (auth & rest & Ht & ?); [|done].
    exists [], auth, rest. split; [|by eauto].
    by apply events_since_app.
Qed.

(** X4.  When the token handshake fails, the call ends with an AUTH_ERROR that
    wraps the failure, and no blob request has been sent. *)
Theorem failed_handshake_sends_no_blob_request fuel ref tok err w w' out :
  snd (authToken registry json_DecodeToken ref w) = (tok, err) ->
  err <> err_nil ->
  downloadLayerWithRetry registry json_DecodeToken fuel ref layerURL destPath size
    expectedDigest w = (w', out) ->
  (out = Returned err_nil /\ w' = w)
  \/ (out = Returned (WrapError ErrCodeAuthError "认证失败" err)
      /\ blob_gets (events_since w w') = []).
Proof.
  intros Hs Hne. rewrite downloadLayerWithRetry_unfold.
  assert (Hatf : forall v pre, requests_made v = requests_made w ->
     trace v = trace w ++ pre -> blob_gets pre = [] ->
     authThenFetch registry json_DecodeToken layerURL destPath size expectedDigest fuel ref v
     = (w', out) ->
     out = Returned (WrapError ErrCodeAuthError "认证失败" err)
     /\ blob_gets (events_since w w') = []).
  { intros v pre Hreq Hpre Hb Hv.
    assert (Hsv : snd (authToken registry json_DecodeToken ref v) = (tok, err))
      by (by rewrite (authToken_result _ _ _ v w Hreq)).
    apply (authThenFetch_refused _ _ _ _ _ _ _ Hsv Hne) in Hv
      as (-> & (auth & Ht & Hauth) & _).
    split; [done|].
    rewrite (events_since_app w w' (pre ++ auth)) by (by rewrite Ht, Hpre, <- app_assoc).
    rewrite blob_gets_app, Hb. by rewrite blob_gets_auth. }
  case_decide as Hfull.
  - case_decide.
    + destruct (is_nil _).
      * intros [= <- <-]. by left.
      * intros Hv. right.
        destruct (getFileSize_pos_exists w destPath) as [data Hd]; [lia|].
        apply (Hatf _ [EvRemove destPath]) in Hv; [done| apply requests_made_remove | | done].
        unfold os_Remove. by rewrite Hd.
    + intros [= <- <-]. by left.
  - intros Hv. right. apply (Hatf _ []) in Hv; [done | done | by rewrite app_nil_r | done].
Qed.

(** ** A layer announced with size zero *)

Lemma retryLoop_always_ok token fuel w :
  always_ok registry ->
  exists w2 e, retryLoop registry layerURL destPath token (S fuel) 0 err_nil w
               = (w2, Returned (true, e)).
Proof.
  intros Hok. rewrite retryLoop_step by (unfold maxRetries; lia). cbv zeta.
  destruct (Hok (requests_made w) (blobRequest layerURL token (getFileSize w destPath)))
    as (resp & -> & H200 & Hbody).
  unfold handleResponse. rewrite decide_False by lia. rewrite decide_True by done.
  rewrite Hbody. eauto.
Qed.

Lemma fetchLoop_never_ends token fuel : forall w,
  size <= 0 -> always_ok registry ->
  snd (fetchLoop registry layerURL destPath size expectedDigest token fuel w) = Running.
Proof.
  induction fuel as [|fuel IH]; intros w Hsize Hok; [done|].
  rewrite fetchLoop_unfold. rewrite decide_False by lia.
  rewrite cycle_start_fits by lia. simpl is_nil. cbv iota.
  destruct fuel as [|fuel]; [done|].
  destruct (retryLoop_always_ok token fuel (log (EvCycle (getFileSize w destPath)) w) Hok)
    as (w2 & e & ->).
  by apply IH.
Qed.

(** X5.  A layer whose expected size is zero (or negative) is never reported as
    fetched; when the registry answers every request with 200 and a
    complete body, the call never returns: the blob is fetched again and
    again. *)
Theorem zero_size_layer_never_succeeds :
  size <= 0 ->
  (forall fuel ref w,
     snd (downloadLayerWithRetry registry json_DecodeToken fuel ref layerURL destPath size
            expectedDigest w) <> Returned err_nil)
  /\ (always_ok registry ->
      forall fuel ref w,
        snd (downloadLayerWithRetry registry json_DecodeToken fuel ref layerURL destPath size
               expectedDigest w) = Running).
Proof.
  intros Hsize. split.
  - intros fuel ref w. rewrite downloadLayerWithRetry_unfold.
    rewrite decide_False by lia.
    destruct (authThenFetch _ _ _ _ _ _ _ _ _) as [w' out] eqn:Hv. simpl.
    intros ->. apply authThenFetch_success in Hv. lia.
  - intros Hok fuel ref w. rewrite downloadLayerWithRetry_unfold.
    rewrite decide_False by lia.
    unfold authThenFetch, authToken, http_Get, http_Do. cbv zeta.
    destruct (Hok (requests_made w)
                {| URL := "https://" +:+ RegistryStr ref +:+ "/v2/";
                   Authorization := None; Range := None |}) as (resp & -> & H200 & _).
    rewrite decide_False by lia. rewrite decide_False by (intros Hx; by apply Hx).
    simpl is_nil. cbv iota. by apply fetchLoop_never_ends.
Qed.

End FetcherExtras.
(** *** Runs of the fetcher, continued *)

(** X1, witness: the blob is fetched from scratch; the second call finds it. *)
Lemma fetch_again_changes_nothing_witness :
  let r := fetch_abc [answer 200 []; answer 200 blob_abc] 3 digest_abc (world_of []) in
  snd r = Returned err_nil
  /\ fetch_abc [answer 200 []; answer 200 blob_abc] 0 digest_abc (fst r)
     = (fst r, Returned err_nil).
Proof.
  intros r. assert (snd r = Returned err_nil) as Hr by (vm_compute; reflexivity).
  split; [exact Hr |].
  apply (fetch_again_changes_nothing (script [answer 200 []; answer 200 blob_abc]) no_token
           url_abc dest_abc 3 digest_abc 3 0 ref_app ref_app (world_of []) (fst r)).
  rewrite <- Hr. apply surjective_pairing.
Defined.

(** X2, witness: while the blob "abc" is fetched, the file of the blob
    "xyz" next to it stays as it is. *)
Lemma fetcher_touches_only_destination_witness :
  let w := world_of [(dest_xyz, blob_xyz)] in
  let r := fetch_abc [answer 200 []; answer 200 blob_abc] 3 digest_abc w in
  (forall p, p <> dest_abc -> files (fst r) !! p = files w !! p) /\ tars (fst r) = tars w.
Proof.
  intros w r.
  apply (fetcher_touches_only_destination (script [answer 200 []; answer 200 blob_abc])
           no_token url_abc dest_abc 3 digest_abc 3 ref_app w (fst r) (snd r)).
  apply surjective_pairing.
Defined.

(** X3, witness: a registry that wants a token; the blob request carries it. *)
Lemma one_handshake_then_blob_requests_witness :
  let w := world_of [] in
  let r := downloadLayerWithRetry token_registry decode_token_document 3 ref_app url_abc
             dest_abc 3 digest_abc w in
  fst r = w
  \/ exists pre auth rest,
       events_since w (fst r) = pre ++ auth ++ rest
       /\ (pre = [] \/ pre = [EvRemove dest_abc])
       /\ Forall auth_event auth /\ (1 <= length auth <= 2)%nat
       /\ Forall (download_event url_abc "t0k3n" dest_abc) rest.
Proof.
  intros w r.
  apply (one_handshake_then_blob_requests token_registry decode_token_document url_abc
           dest_abc 3 digest_abc 3 ref_app "t0k3n" w (fst r) (snd r));
    [vm_compute; reflexivity | apply surjective_pairing].
Defined.

(** X4, witness: the probe is answered 500. *)
Lemma failed_handshake_sends_no_blob_request_witness :
  let w := world_of [] in
  let r := fetch_abc [answer 500 []] 3 digest_abc w in
  (snd r = Returned err_nil /\ fst r = w)
  \/ (snd r = Returned (WrapError ErrCodeAuthError "认证失败"
                         (WrapError ErrCodeAuthError "认证请求失败，状态码: 500" err_nil))
      /\ blob_gets (events_since w (fst r)) = []).
Proof.
  intros w r.
  apply (failed_handshake_sends_no_blob_request (script [answer 500 []]) no_token url_abc
           dest_abc 3 digest_abc 3 ref_app ""
           (WrapError ErrCodeAuthError "认证请求失败，状态码: 500" err_nil) w (fst r) (snd r));
    [vm_compute; reflexivity | discriminate | apply surjective_pairing].
Defined.

(** X5, witness: a layer announced with size zero, and a registry that
    serves a blob to every request. *)
Lemma zero_size_layer_never_succeeds_witness :
  always_ok generous_registry
  /\ snd (downloadLayerWithRetry generous_registry no_token 40 ref_app url_abc dest_abc 0
            digest_abc (world_of [])) = Running.
Proof.
  assert (always_ok generous_registry) as Hok.
  { intros n req. eexists. split; [reflexivity |]. split; reflexivity. }
  split; [exact Hok |].
  apply (proj2 (zero_size_layer_never_succeeds generous_registry no_token url_abc dest_abc 0
                  digest_abc ltac:(lia)) Hok).
Defined.
(** ** From the export to the archive *)




Section ExportProperties.

Variable registry : nat -> Request -> option Response.
Variable json_DecodeToken : list byte -> bool -> option string.
Variable ConfigFile : Type.
Variable json_MarshalConfig : ConfigFile -> list byte * error.
Variable json_MarshalManifest : list (gmap string Value) -> list byte * error.
Variable json_MarshalRepositories : gmap string (gmap string string) -> list byte * error.
Variable name_ParseReference : string -> Reference * error.
Variable json_UnmarshalManifest : list byte -> list (gmap string Value) * error.
Variable filepath_Join : string -> string -> string.
Variable outputDir : string.

(** Where [streamDockerFormatWithReturn] puts the blob of a layer. *)
Local Abbreviation layer_file layer := (outputDir +:+ "/" +:+ layer_digest layer +:+ ".tar").






End ExportProperties.
(** ** An export that fails *)

Lemma written_app a b : written (a ++ b) = written a ++ written b.
Proof. unfold written. apply omap_app. Qed.

Lemma written_fetcher dest evs : Forall (fetcher_event dest) evs -> written evs = [].
Proof.
  induction 1 as [|e evs He _ IH]; [done |].
  destruct e as [[] r| | | | | | | |]; simpl in *; try done; destruct He as [[]|[]].
Qed.

Lemma fetched_fetcher dest evs : Forall (fetcher_event dest) evs -> fetched evs = [].
Proof.
  induction 1 as [|e evs He _ IH]; [done |].
  destruct e as [[] r| | | | | | | |]; simpl in *; try done; destruct He as [[]|[]].
Qed.

Section FailedExport.

Variable registry : nat -> Request -> option Response.
Variable json_DecodeToken : list byte -> bool -> option string.
Variable ConfigFile : Type.
Variable json_MarshalConfig : ConfigFile -> list byte * error.
Variable json_MarshalManifest : list (gmap string Value) -> list byte * error.
Variable json_MarshalRepositories : gmap string (gmap string string) -> list byte * error.
Variable name_ParseReference : string -> Reference * error.

Lemma downloadLayerWithRetry_events fuel ref url dest size dig w w' out :
  downloadLayerWithRetry registry json_DecodeToken fuel ref url dest size dig w = (w', out) ->
  grows (fetcher_event dest) w w'.
Proof.
  rewrite downloadLayerWithRetry_unfold.
  assert (Hatf : forall v, authThenFetch registry json_DecodeToken url dest size dig fuel ref v
                           = (w', out) -> grows (fetcher_event dest) v w').
  { intros v. unfold authThenFetch.
    destruct (authToken registry json_DecodeToken ref v) as [v1 [tok err]] eqn:Ha.
    apply authToken_frame in Ha as [Hg _].
    apply (grows_impl _ (fetcher_event dest)) in Hg; [| by left].
    destruct (is_nil err).
    - intros Hf. apply fetchLoop_grows in Hf.
      eapply grows_trans; [exact Hg |]. eapply grows_impl; [| exact Hf]. by right.
    - by intros [= <- <-]. }
  case_decide; [| by apply Hatf].
  case_decide.
  - destruct (is_nil _).
    + intros [= <- <-]. apply grows_refl.
    + intros Hv. apply Hatf in Hv. eapply grows_trans; [| exact Hv].
      apply os_Remove_grows. by right.
  - intros [= <- <-]. apply grows_refl.
Qed.

Lemma fetchLayer_events fuel options imageRef outputDir layer w w' out :
  fetchLayer registry json_DecodeToken name_ParseReference fuel options imageRef outputDir
    layer w = (w', out) ->
  exists evs, trace w' = trace w ++ evs /\ written evs = []
              /\ (out = Returned err_nil -> fetched evs = [layer_digest layer])
              /\ (forall e, out = Returned e -> code_of e = Some ErrCodeImageDownload ->
                  fetched evs = [layer_digest layer]
                  /\ exists cause,
                       e = WrapError ErrCodeImageDownload
                             ("通过 REST 下载层 " +:+ layer_digest layer +:+ " 失败") cause
                       /\ cause <> err_nil).
Proof.
  unfold fetchLayer, layer_digest.
  assert (Hnone : forall e : error, code_of e = Some ErrCodeImageParse ->
            (w, Returned e) = (w', out) ->
            exists evs, trace w' = trace w ++ evs /\ written evs = []
              /\ (out = Returned err_nil -> fetched evs = [Hash_String (fst (layer_Digest layer))])
              /\ (forall e, out = Returned e -> code_of e = Some ErrCodeImageDownload ->
                  fetched evs = [Hash_String (fst (layer_Digest layer))]
                  /\ exists cause,
                       e = WrapError ErrCodeImageDownload
                             ("通过 REST 下载层 " +:+ Hash_String (fst (layer_Digest layer))
                              +:+ " 失败") cause
                       /\ cause <> err_nil)).
  { intros e He [= <- <-]. exists []. rewrite app_nil_r.
    split; [done |]. split; [done |]. split.
    - intros [= ->]. discriminate.
    - intros e' [= <-] He'. congruence. }
  destruct (layer_Digest layer) as [digest err]. simpl in Hnone.
  destruct (is_nil err); [| by apply Hnone].
  destruct (match options with Some _ => _ | None => _ end) as [layerSize err'].
  destruct (is_nil err'); [| by apply Hnone].
  destruct (name_ParseReference imageRef) as [info err'']. destruct (is_nil err''); [| by apply Hnone].
  destruct (downloadLayerWithRetry _ _ _ _ _ _ _ _ _) as [w2 o] eqn:Hd.
  apply downloadLayerWithRetry_events in Hd as (evs & T & F).
  assert (Hcommon : trace w2 = trace w ++ EvFetchLayer
            ("https://" +:+ RegistryStr info +:+ "/v2/" +:+ RepositoryStr info +:+ "/blobs/"
             +:+ Hash_String digest)
            (outputDir +:+ "/" +:+ Hash_String digest +:+ ".tar") layerSize (Hash_String digest)
            :: evs) by (rewrite T; simpl; by rewrite <- app_assoc).
  assert (Hw : written (EvFetchLayer
            ("https://" +:+ RegistryStr info +:+ "/v2/" +:+ RepositoryStr info +:+ "/blobs/"
             +:+ Hash_String digest)
            (outputDir +:+ "/" +:+ Hash_String digest +:+ ".tar") layerSize (Hash_String digest)
            :: evs) = []) by (simpl; by rewrite (written_fetcher _ _ F)).
  assert (Hf : fetched (EvFetchLayer
            ("https://" +:+ RegistryStr info +:+ "/v2/" +:+ RepositoryStr info +:+ "/blobs/"
             +:+ Hash_String digest)
            (outputDir +:+ "/" +:+ Hash_String digest +:+ ".tar") layerSize (Hash_String digest)
            :: evs) = [Hash_String digest]) by (simpl; by rewrite (fetched_fetcher _ _ F)).
  destruct o as [|e].
  - intros [= <- <-]. eexists. split; [exact Hcommon |]. split; [exact Hw |].
    split; [done |]. intros e [=].
  - destruct (is_nil e) eqn:He; intros [= <- <-];
      (eexists; split; [exact Hcommon |]; split; [exact Hw |]; split; [done |]).
    + intros e' [= <-]. discriminate.
    + intros e' [= <-] _. split; [done |]. exists e. split; [done |].
      intros ->. discriminate.
Qed.

Lemma fetchLayers_failed fuel options imageRef outputDir layers : forall w w' e,
  fetchLayers registry json_DecodeToken name_ParseReference fuel options imageRef outputDir
    layers w = (w', Returned e) ->
  code_of e = Some ErrCodeImageDownload ->
  exists done failed rest evs cause,
    layers = done ++ failed :: rest
    /\ trace w' = trace w ++ evs
    /\ written evs = []
    /\ fetched evs = map layer_digest (done ++ [failed])
    /\ e = WrapError ErrCodeImageDownload
             ("通过 REST 下载层 " +:+ layer_digest failed +:+ " 失败") cause
    /\ cause <> err_nil.
Proof.
  induction layers as [|layer layers IH]; intros w w' e; simpl.
  - intros [= <- <-]. discriminate.
  - destruct (fetchLayer _ _ _ _ _ _ _ _ _) as [w1 o] eqn:Hl.
    apply fetchLayer_events in Hl as (evs1 & T1 & W1 & Hok & Hfail).
    destruct o as [|e1]; [done |]. destruct (is_nil e1) eqn:He1.
    + apply is_nil_true in He1 as ->. intros Hrest Hcode.
      destruct (IH _ _ _ Hrest Hcode) as (done & failed & rest & evs & cause & -> & T & W & F & -> & Hc).
      exists (layer :: done), failed, rest, (evs1 ++ evs), cause.
      split; [done |]. split; [rewrite T, T1; by rewrite <- app_assoc |].
      split; [by rewrite written_app, W1, W |].
      split; [| done]. rewrite fetched_app, (Hok eq_refl), F. done.
    + intros [= <- <-] Hcode.
      destruct (Hfail e1 eq_refl Hcode) as (F & cause & -> & Hc).
      exists [], layer, layers, evs1, cause. done.
Qed.

(** X7.  When the export fails because a layer could not be fetched, the
    error names that layer and wraps the cause; the layers after it have
    not been asked for, and the only file written with [os.WriteFile] is
    the configuration: no manifest.json and no repositories file come out
    of a failed export. *)
Theorem failed_layer_stops_the_export fuel img existLayers outputDir options imageRef w w' e :
  streamImageLayers registry json_DecodeToken ConfigFile json_MarshalConfig
    json_MarshalManifest json_MarshalRepositories name_ParseReference fuel img existLayers
    outputDir options imageRef w = (w', Returned e) ->
  code_of e = Some ErrCodeImageDownload ->
  exists configDigest done failed rest cause,
    img_ConfigName ConfigFile img = (configDigest, err_nil)
    /\ img_Layers ConfigFile img = (done ++ failed :: rest, err_nil)
    /\ e = WrapError ErrCodeImageDownload
             ("通过 REST 下载层 " +:+ layer_digest failed +:+ " 失败") cause
    /\ cause <> err_nil
    /\ fetched (events_since w w') = map layer_digest (done ++ [failed])
    /\ written (events_since w w')
       = [outputDir +:+ "/" +:+ Hash_String configDigest +:+ ".json"].
Proof.
  unfold streamImageLayers.
  destruct (img_ConfigFile ConfigFile img) as [configFile err].
  destruct (is_nil err); [| intros [= <- <-]; discriminate].
  destruct (img_Layers ConfigFile img) as [layers err'] eqn:Hlayers.
  destruct (is_nil err') eqn:He'; [| intros [= <- <-]; discriminate].
  apply is_nil_true in He' as ->.
  unfold streamDockerFormatWithReturn.
  destruct (img_ConfigName ConfigFile img) as [configDigest errc] eqn:Hc.
  destruct (is_nil errc) eqn:Hec; [| simpl; intros [= <- <-]; discriminate].
  apply is_nil_true in Hec as ->.
  destruct (json_MarshalConfig configFile) as [configData errm].
  destruct (is_nil errm); [| simpl; intros [= <- <-]; discriminate].
  destruct (collectDigests layers) as [ds errd] eqn:Hds.
  destruct (is_nil errd) eqn:Hed.
  - destruct (fetchLayers _ _ _ _ _ _ _ _ _) as [w2 o] eqn:Hl.
    destruct o as [|e2]; [done |]. destruct (is_nil e2) eqn:Hn.
    + destruct (json_MarshalManifest _) as [manifestData em].
      destruct (is_nil em); [| simpl; intros [= <- <-]; discriminate].
      destruct (json_MarshalRepositories _) as [reposData er].
      destruct (is_nil er); simpl; intros [= <- <-]; discriminate.
    + simpl. intros [= <- <-] Hcode.
      destruct (fetchLayers_failed _ _ _ _ _ _ _ _ Hl Hcode)
        as (done & failed & rest & evs & cause & -> & T & W & F & -> & Hcause).
      exists configDigest, done, failed, rest, cause.
      split; [done |]. split; [done |]. split; [done |]. split; [done |].
      rewrite (events_since_app w w2
                 (EvWriteFile (outputDir +:+ "/" +:+ Hash_String configDigest +:+ ".json")
                  :: evs)) by (rewrite T; simpl; by rewrite <- app_assoc).
      simpl. by rewrite W, F.
  - simpl. intros [= <- <-] Hcode. exfalso.
    clear -Hds Hcode. revert ds Hds.
    induction layers as [|layer layers IH]; simpl; intros ds; [by intros [= _ <-] |].
    destruct (layer_Digest layer) as [digest err]. destruct (is_nil err).
    + destruct (collectDigests layers) as [ds' err']. intros [= _ <-]. by eapply IH.
    + intros [= _ <-]. discriminate.
Qed.

End FailedExport.
(** X7, witness: the first layer of the image is fetched; the handshake for
    the second one is answered 500. *)
Lemma failed_layer_stops_the_export_witness :
  let w := world_of [] in
  let r := export_app [answer 200 []; answer 200 blob_abc; answer 500 []] [] w in
  exists e,
    snd r = Returned e
    /\ code_of e = Some ErrCodeImageDownload
    /\ exists configDigest done failed rest cause,
         img_ConfigName (list byte) image_app = (configDigest, err_nil)
         /\ img_Layers (list byte) image_app = (done ++ failed :: rest, err_nil)
         /\ e = WrapError ErrCodeImageDownload
                  ("通过 REST 下载层 " +:+ layer_digest failed +:+ " 失败") cause
         /\ cause <> err_nil
         /\ fetched (events_since w (fst r)) = map layer_digest (done ++ [failed])
         /\ written (events_since w (fst r))
            = ["output" +:+ "/" +:+ Hash_String configDigest +:+ ".json"].
Proof.
  intros w r.
  assert (exists e, snd r = Returned e /\ code_of e = Some ErrCodeImageDownload)
    as (e & Hr & He) by (eexists; split; vm_compute; reflexivity).
  exists e. split; [exact Hr |]. split; [exact He |].
  apply (failed_layer_stops_the_export
           (script [answer 200 []; answer 200 blob_abc; answer 500 []]) no_token (list byte)
           (fun c => (c, err_nil)) marshal_manifest marshal_repositories parse_app 4 image_app
           [] "output" options_app name_app w (fst r) e); [| exact He].
  rewrite <- Hr. apply surjective_pairing.
Defined.
(** ** Choosing the image of a platform *)

Lemma selectLoop_passed_over o pre : forall rest,
  Forall (passed_over (Platform o)) pre ->
  selectLoop (Some o) (pre ++ rest) = selectLoop (Some o) rest.
Proof.
  induction 1 as [|m pre Hm _ IH]; [done |]. simpl.
  unfold passed_over in Hm. destruct (desc_Platform m) as [p|]; [| done].
  by rewrite Hm.
Qed.

Lemma selectLoop_none o manifests :
  Forall (passed_over (Platform o)) manifests ->
  selectLoop (Some o) manifests = Done None.
Proof.
  intros H. rewrite <- (app_nil_r manifests). by rewrite selectLoop_passed_over.
Qed.

(** X8.  What [selectPlatformImage] chooses from a readable index.  The
    image of the first manifest that has a platform and passes the test is
    returned.  When no manifest passes, the first manifest of the index is
    taken instead, whatever its platform; if that manifest has no platform
    at all the call panics with a nil dereference.  An empty index gives an
    IMAGE_PARSE_FAILED error. *)
Theorem selectPlatformImage_choice (ConfigFile : Type) (desc : RemoteDescriptor ConfigFile)
    (index : ImageIndex ConfigFile) (manifests : list Descriptor) (o : StreamOptions) :
  rd_ImageIndex desc = (index, err_nil) ->
  idx_Manifests index = (manifests, err_nil) ->
  let result := selectPlatformImage desc (Some o) in
  (forall pre m post p,
     manifests = pre ++ m :: post ->
     Forall (passed_over (Platform o)) pre ->
     desc_Platform m = Some p -> platform_selected (Platform o) p = true ->
     result = image_of index m)
  /\ (Forall (passed_over (Platform o)) manifests ->
      match manifests with
      | [] => result = Done (inr (WrapError ErrCodeImageParse "未找到合适的平台镜像" err_nil))
      | m :: _ =>
          match desc_Platform m with
          | None => result = Panic "nil pointer dereference"
          | Some _ => result = image_of index m
          end
      end).
Proof.
  intros Hi Hm result. subst result. unfold selectPlatformImage. rewrite Hi. simpl.
  rewrite Hm. simpl. split.
  - intros pre m post p -> Hpre Hp Hsel.
    rewrite selectLoop_passed_over by done. simpl. rewrite Hp, Hsel. simpl. rewrite Hp. reflexivity.
  - intros Hall. rewrite selectLoop_none by done.
    destruct manifests as [|m rest]; [done |]. simpl.
    destruct (desc_Platform m); reflexivity.
Qed.

(** X9.  The test of the selection loop.  A platform of two parts selects
    only manifests without a variant; a platform of three parts must agree
    in the variant too, and a fourth part is ignored; a platform without a
    slash selects nothing; with no platform asked for, linux/amd64 is
    selected whatever the variant. *)
Theorem platform_selected_cases (p : v1_Platform) :
  (forall os arch, ~ occurs "/" os -> ~ occurs "/" arch ->
     platform_selected (os +:+ "/" +:+ arch) p = true
     <-> OS p = os /\ Architecture p = arch /\ Variant p = "")
  /\ (forall os arch variant,
        ~ occurs "/" os -> ~ occurs "/" arch -> ~ occurs "/" variant ->
        platform_selected (os +:+ "/" +:+ arch +:+ "/" +:+ variant) p = true
        <-> OS p = os /\ Architecture p = arch /\ Variant p = variant)
  /\ (forall os arch variant extra,
        ~ occurs "/" os -> ~ occurs "/" arch -> ~ occurs "/" variant ->
        platform_selected (os +:+ "/" +:+ arch +:+ "/" +:+ variant +:+ "/" +:+ extra) p
        = platform_selected (os +:+ "/" +:+ arch +:+ "/" +:+ variant) p)
  /\ (forall platform, platform <> "" -> ~ occurs "/" platform ->
        platform_selected platform p = false)
  /\ (platform_selected "" p = true <-> OS p = "linux" /\ Architecture p = "amd64").
Proof.
  assert (Hne : forall os rest, os +:+ String "/" rest <> "")
    by (intros [|c os] rest; discriminate).
  split; [| split; [| split; [| split]]].
  - intros os arch Hos Harch. unfold platform_selected.
    change (os +:+ "/" +:+ arch) with (os +:+ String "/" arch).
    rewrite decide_True by apply Hne.
    rewrite Split_cut, Split_whole by done.
    by rewrite bool_decide_eq_true.
  - intros os arch variant Hos Harch Hvar. unfold platform_selected.
    change (os +:+ "/" +:+ arch +:+ "/" +:+ variant)
      with (os +:+ String "/" (arch +:+ String "/" variant)).
    rewrite decide_True by apply Hne.
    rewrite !Split_cut, Split_whole by done.
    by rewrite bool_decide_eq_true.
  - intros os arch variant extra Hos Harch Hvar. unfold platform_selected.
    change (os +:+ "/" +:+ arch +:+ "/" +:+ variant +:+ "/" +:+ extra)
      with (os +:+ String "/" (arch +:+ String "/" (variant +:+ String "/" extra))).
    change (os +:+ "/" +:+ arch +:+ "/" +:+ variant)
      with (os +:+ String "/" (arch +:+ String "/" variant)).
    rewrite !decide_True by apply Hne.
    rewrite !Split_cut, Split_whole by done. done.
  - intros platform Hnon Hno. unfold platform_selected.
    rewrite decide_True by done. by rewrite Split_whole.
  - unfold platform_selected. rewrite decide_False by (intros H; by apply H).
    by rewrite bool_decide_eq_true.
Qed.
(** X8, witness: asked for linux/arm64, the index of a linux/amd64 and a
    linux/arm64/v8 manifest has no manifest that passes, and the amd64
    image, the first of the index, is returned; asked for linux/arm64/v8,
    the arm64 image is. *)
Lemma selectPlatformImage_choice_witness :
  selectPlatformImage descriptor_app (options_for "linux/arm64")
  = image_of index_app amd64_manifest
  /\ selectPlatformImage descriptor_app (options_for "linux/arm64/v8")
     = image_of index_app arm64_manifest.
Proof.
  split.
  - refine (proj2 (selectPlatformImage_choice (list byte) descriptor_app index_app
                     [amd64_manifest; arm64_manifest]
                     {| Platform := "linux/arm64"; Compression := true;
                        UseCompressedLayers := true |} eq_refl eq_refl) _).
    repeat constructor.
  - refine (proj1 (selectPlatformImage_choice (list byte) descriptor_app index_app
                     [amd64_manifest; arm64_manifest]
                     {| Platform := "linux/arm64/v8"; Compression := true;
                        UseCompressedLayers := true |} eq_refl eq_refl)
              [amd64_manifest] arm64_manifest []
              {| OS := "linux"; Architecture := "arm64"; Variant := "v8" |}
              eq_refl _ eq_refl eq_refl).
    repeat constructor.
Defined.

(** X9, witness: the manifest linux/arm64/v8 against three platforms. *)
Lemma platform_selected_cases_witness :
  let p := {| OS := "linux"; Architecture := "arm64"; Variant := "v8" |} in
  platform_selected "linux/arm64" p = false
  /\ platform_selected "linux/arm64/v8" p = true
  /\ platform_selected "linux" p = false.
Proof.
  intros p.
  destruct (platform_selected_cases p) as (H2 & H3 & _ & H1 & _).
  split; [| split].
  - destruct (platform_selected "linux/arm64" p) eqn:Hs; [| done].
    apply (H2 "linux" "arm64") in Hs as (_ & _ & Hv);
      [discriminate | simpl; intuition discriminate | simpl; intuition discriminate].
  - apply (H3 "linux" "arm64" "v8"); [simpl; intuition discriminate ..| done].
  - apply H1; [discriminate | simpl; intuition discriminate].
Defined.
(** ** Log levels and the logger *)

Lemma upper_ascii_idem c : is_ascii c = true -> upper_ascii (upper_ascii c) = upper_ascii c.
Proof.
  intros _. unfold upper_ascii. cbv zeta.
  destruct (decide (97 <= nat_of_ascii c <= 122)%nat) as [H|H].
  - rewrite nat_ascii_embedding by lia. by rewrite decide_False by lia.
  - by rewrite decide_False.
Qed.

Lemma upper_ascii_is_ascii c : is_ascii c = true -> is_ascii (upper_ascii c) = true.
Proof.
  unfold upper_ascii, is_ascii. rewrite !bool_decide_eq_true. intros Hc.
  case_decide; [| done]. rewrite nat_ascii_embedding by lia. lia.
Qed.

Lemma map_upper_ascii s : all_ascii s = true -> all_ascii (map_upper s) = true.
Proof.
  induction s as [|c s IH]; simpl; [done |].
  rewrite !andb_true_iff. intros [Hc Hs]. split; [by apply upper_ascii_is_ascii | auto].
Qed.

Lemma map_upper_idem s : all_ascii s = true -> map_upper (map_upper s) = map_upper s.
Proof.
  induction s as [|c s IH]; simpl; [done |].
  rewrite andb_true_iff. intros [Hc Hs]. by rewrite upper_ascii_idem, IH.
Qed.

Section LogLevelProperties.

Variable unicode_ToUpper : string -> string.

(** X10.  Log levels and their names.  Every name [LogLevel.String] gives
    to one of the five levels is read back by [ParseLogLevel] as that
    level; any other level is printed as UNKNOWN, which is read as INFO.
    [ParseLogLevel] knows no failure: it always answers one of the five
    levels, so its answer is never printed as UNKNOWN; and on ASCII text
    it does not look at the case of the letters. *)
Theorem log_level_names :
  (forall l, DEBUG <= l <= FATAL ->
     ParseLogLevel unicode_ToUpper (LogLevel_String l) = l)
  /\ (forall l, ~ DEBUG <= l <= FATAL ->
        LogLevel_String l = "UNKNOWN"
        /\ ParseLogLevel unicode_ToUpper (LogLevel_String l) = INFO)
  /\ (forall name, DEBUG <= ParseLogLevel unicode_ToUpper name <= FATAL
                   /\ LogLevel_String (ParseLogLevel unicode_ToUpper name) <> "UNKNOWN")
  /\ (forall name, all_ascii name = true ->
        ParseLogLevel unicode_ToUpper (map_upper name) = ParseLogLevel unicode_ToUpper name).
Proof.
  unfold DEBUG, INFO, WARN, ERROR, FATAL. split; [| split; [| split]].
  - intros l Hl.
    assert (l = 0 \/ l = 1 \/ l = 2 \/ l = 3 \/ l = 4) as [->|[->|[->|[->| ->]]]] by lia;
      reflexivity.
  - intros l Hl. unfold LogLevel_String, DEBUG, INFO, WARN, ERROR, FATAL.
    rewrite !decide_False by lia. split; reflexivity.
  - intros name.
    assert (Hcases : ParseLogLevel unicode_ToUpper name = 0
                     \/ ParseLogLevel unicode_ToUpper name = 1
                     \/ ParseLogLevel unicode_ToUpper name = 2
                     \/ ParseLogLevel unicode_ToUpper name = 3
                     \/ ParseLogLevel unicode_ToUpper name = 4).
    { unfold ParseLogLevel, DEBUG, INFO, WARN, ERROR, FATAL. cbv zeta.
      repeat case_decide; auto 10. }
    destruct Hcases as [->|[->|[->|[->| ->]]]]; (split; [lia | discriminate]).
  - intros name Hascii. unfold ParseLogLevel, strings_ToUpper.
    rewrite Hascii, (map_upper_ascii _ Hascii), map_upper_idem by done. done.
Qed.

End LogLevelProperties.

(** X11.  What the logger prints.  With a logger at level [l], a message of
    level [lv] is printed exactly when [l <= lv]; [LogFatal] prints its
    message whatever the level and ends the program with status 1.  While
    no logger exists, [SetLogLevel] is lost: the first message creates the
    logger at level INFO, so a DEBUG message after [SetLogLevel(DEBUG)] is
    not printed, and the logger then stands at INFO. *)
Theorem logger_levels (st : LogState) (l lv : Z) (msg : string) :
  (globalLogger st = Some l ->
   log_at lv msg st = (if decide (l <= lv) then println lv msg st else st)
   /\ printed (LogFatal msg st) = printed st ++ [{| line_level := FATAL; line_message := msg |}]
   /\ exited (LogFatal msg st) = Some 1)
  /\ (globalLogger st = None ->
      let st' := LogDebug msg (SetLogLevel DEBUG st) in
      printed st' = printed st /\ globalLogger st' = Some INFO)
  /\ (globalLogger st = None ->
      printed (log_at lv msg st)
      = if decide (INFO <= lv) then printed st ++ [{| line_level := lv; line_message := msg |}]
        else printed st).
Proof.
  split; [| split].
  - intros Hl. unfold log_at, LogFatal, GetLogger. rewrite Hl. unfold shouldLog.
    split; [| done]. case_decide.
    + by rewrite bool_decide_eq_true_2.
    + by rewrite bool_decide_eq_false_2.
  - intros Hn. unfold LogDebug, log_at, SetLogLevel, GetLogger. rewrite Hn. simpl.
    rewrite Hn. unfold shouldLog, INFO, DEBUG.
    rewrite bool_decide_eq_false_2 by lia. done.
  - intros Hn. unfold log_at, GetLogger. rewrite Hn. unfold shouldLog.
    case_decide.
    + by rewrite bool_decide_eq_true_2.
    + by rewrite bool_decide_eq_false_2.
Qed.
(** X10, witness: the name "warning" in lower case, and the name of ERROR. *)
Lemma log_level_names_witness :
  ParseLogLevel (fun s => s) "warning" = WARN
  /\ ParseLogLevel (fun s => s) (LogLevel_String ERROR) = ERROR.
Proof.
  destruct (log_level_names (fun s => s)) as (Hback & _ & _ & Hcase).
  split.
  - rewrite <- (Hcase "warning") by reflexivity. reflexivity.
  - apply Hback. unfold DEBUG, ERROR, FATAL. lia.
Defined.

(** X11, witness: a logger at level WARN drops an INFO message and prints an
    ERROR message; without a logger, setting the level to DEBUG does not
    make a DEBUG message appear. *)
Lemma logger_levels_witness :
  let st := InitLogger WARN no_logger in
  LogInfo "starting" st = st
  /\ printed (LogError "failed" st) = [{| line_level := ERROR; line_message := "failed" |}]
  /\ printed (LogDebug "detail" (SetLogLevel DEBUG no_logger)) = []
  /\ globalLogger (LogDebug "detail" (SetLogLevel DEBUG no_logger)) = Some INFO.
Proof.
  intros st.
  destruct (logger_levels st WARN INFO "starting") as ((Hinfo & _) & _); [reflexivity |].
  destruct (logger_levels st WARN ERROR "failed") as ((Herror & _) & _); [reflexivity |].
  destruct (logger_levels no_logger WARN DEBUG "detail") as (_ & Hlost & _).
  destruct (Hlost eq_refl) as [Hp Hg].
  split; [exact Hinfo |]. split; [unfold LogError; by rewrite Herror |].
  split; [exact Hp | exact Hg].
Defined.
(** ** The configuration *)






(** X13.  The retry delay read from DOWNLOAD_RETRY_DELAY is the number of
    seconds times 10^9 in 64-bit arithmetic: exact up to 9223372036
    seconds, negative (and so rejected by [validateConfig]) from
    9223372037 to 18446744073 seconds, and for 18446744074 seconds a delay
    of 290448384 nanoseconds. *)
Theorem retry_delay_from_env (env : gmap string string) (cfg : Config) (delay : Z) :
  os_Getenv env "DOWNLOAD_RETRY_DELAY" <> "" ->
  strconv_Atoi (os_Getenv env "DOWNLOAD_RETRY_DELAY") = Some delay ->
  let d := RetryDelay (Download (overrideFromEnv env cfg)) in
  d = wrap64 (delay * time_Second)
  /\ (- 9223372036 <= delay <= 9223372036 -> d = delay * 1000000000)
  /\ (9223372037 <= delay <= 18446744073 -> d < 0)
  /\ (delay = 18446744074 -> d = 290448384).
Proof.
  intros Hset Hparse d. subst d. simpl.
  rewrite decide_True by done. rewrite Hparse.
  unfold wrap64, time_Second. split; [done |].
  split; [| split]; intros H.
  - rewrite Z.mod_small; lia.
  - assert ((delay * 1000000000 + 2 ^ 63) mod 2 ^ 64
            = delay * 1000000000 + 2 ^ 63 - 2 ^ 64) as ->; [| lia].
    symmetry. apply (Z.mod_unique _ _ 1); lia.
  - subst delay. reflexivity.
Qed.

Section ConfigurationProperties.

Variable Disk : Type.
Variable os_Stat : Disk -> string -> StatResult.
Variable os_MkdirAll : string -> Disk -> Disk * error.
Variable os_Open : Disk -> string -> option (list byte).
Variable json_DecodeConfig : list byte -> Config -> Config * error.
Variable Duration_String : Z -> string.

Lemma validateConfig_nil cfg disk disk' :
  validateConfig Disk os_Stat os_MkdirAll Duration_String cfg disk = (disk', err_nil) ->
  valid_fields cfg
  /\ (KeyFile (SSH cfg) <> "" -> os_IsNotExist (os_Stat disk (KeyFile (SSH cfg))) = false)
  /\ disk' = (if decide (OutputDir (Download cfg) <> ""
                         /\ os_IsNotExist (os_Stat disk (OutputDir (Download cfg))) = true)
              then fst (os_MkdirAll (OutputDir (Download cfg)) disk) else disk).
Proof.
  unfold validateConfig, valid_fields.
  repeat (case_decide; [intros [= _ ?]; discriminate |]).
  intros Hlast.
  split; [| split].
  - repeat split; try done; try lia.
    destruct (decide (Password (SSH cfg) = "")); [| by left].
    right. intros HK.
    match goal with H : ~ (Password _ = "" /\ _) |- _ => apply H; by split end.
  - intros HK.
    match goal with
    | H : ~ (KeyFile _ <> "" /\ _) |- _ =>
        destruct (os_IsNotExist _); [exfalso; apply H; by split | done]
    end.
  - case_decide.
    + destruct (os_MkdirAll _ _) as [d e]. destruct (is_nil e); by simplify_eq.
    + by simplify_eq.
Qed.

Lemma validateConfig_error cfg disk disk' e :
  validateConfig Disk os_Stat os_MkdirAll Duration_String cfg disk = (disk', e) ->
  e <> err_nil ->
  code_of e = Some ErrCodeConfigError \/ code_of e = Some ErrCodeFileOperation.
Proof.
  unfold validateConfig.
  repeat (case_decide; [intros [= _ <-]; by left |]).
  case_decide.
  - destruct (os_MkdirAll _ _) as [d err]. destruct (is_nil err); intros [= _ <-]; [done |].
    by right.
  - by intros [= _ <-].
Qed.

(** X14.  [LoadConfig] returns a configuration or an error, never both and
    never neither.  A configuration it returns has passed every check of
    [validateConfig]: host and user are set, the port lies in 1..65535,
    there is a password or a key file, the numbers are in range, and a key
    file that is named is not reported absent; a variable of the
    environment that is set has won over the file and the defaults.  The
    only change to the disk is the output directory, created when it was
    absent.  An error is a CONFIG_ERROR or a FILE_OPERATION_FAILED. *)
Theorem LoadConfig_result env configPath disk disk' result err :
  LoadConfig Disk os_Stat os_MkdirAll os_Open json_DecodeConfig Duration_String env
    configPath disk = (disk', (result, err)) ->
  match result with
  | Some cfg =>
      err = err_nil
      /\ valid_fields cfg
      /\ (KeyFile (SSH cfg) <> "" -> os_IsNotExist (os_Stat disk (KeyFile (SSH cfg))) = false)
      /\ (os_Getenv env "SSH_HOST" <> "" -> Host (SSH cfg) = os_Getenv env "SSH_HOST")
      /\ disk' = (if decide (OutputDir (Download cfg) <> ""
                             /\ os_IsNotExist (os_Stat disk (OutputDir (Download cfg))) = true)
                  then fst (os_MkdirAll (OutputDir (Download cfg)) disk) else disk)
  | None =>
      err <> err_nil
      /\ (code_of err = Some ErrCodeConfigError \/ code_of err = Some ErrCodeFileOperation)
  end.
Proof.
  unfold LoadConfig. cbv zeta.
  set (fromFile := if decide (configPath <> "" /\ _) then _ else _).
  assert (Hfile : is_nil (snd fromFile) = false ->
            code_of (snd fromFile) = Some ErrCodeConfigError
            \/ code_of (snd fromFile) = Some ErrCodeFileOperation).
  { subst fromFile. case_decide; [| done].
    destruct (os_Open disk configPath) as [data|]; [| by right].
    destruct (json_DecodeConfig data DefaultConfig) as [c e]. destruct (is_nil e); [done |].
    by left. }
  destruct fromFile as [cfg ferr]. simpl in Hfile.
  destruct (is_nil ferr) eqn:Hn.
  - destruct (validateConfig _ _ _ _ _ _) as [d verr] eqn:Hv.
    destruct (is_nil verr) eqn:Hvn.
    + apply is_nil_true in Hvn as ->. intros [= <- <- <-].
      apply validateConfig_nil in Hv as (Hvalid & Hkey & Hdisk).
      split; [done |]. split; [done |]. split; [done |]. split; [| done].
      intros Hset. simpl. unfold env_string. by rewrite decide_True.
    + intros [= <- <- <-].
      assert (verr <> err_nil) as Hne by (intros ->; discriminate).
      split; [done |]. by eapply validateConfig_error.
  - intros [= <- <- <-]. split; [intros ->; discriminate | by apply Hfile].
Qed.

End ConfigurationProperties.

(** X13, witness: a delay of 9223372037 seconds comes out negative. *)
Lemma retry_delay_from_env_witness :
  let env : gmap string string := {[ "DOWNLOAD_RETRY_DELAY" := "9223372037" ]} in
  RetryDelay (Download (overrideFromEnv env DefaultConfig)) < 0.
Proof.
  intros env.
  refine (proj1 (proj2 (proj2 (retry_delay_from_env env DefaultConfig 9223372037 _ _))) _).
  - discriminate.
  - reflexivity.
  - lia.
Defined.

(** X14, witness: no configuration file and an empty environment on an
    empty disk: the defaults are returned and the output directory is
    created. *)
Lemma LoadConfig_result_witness :
  load_app ∅ "config.json" [] = (["output"], (Some DefaultConfig, err_nil))
  /\ valid_fields DefaultConfig.
Proof.
  assert (load_app ∅ "config.json" [] = (["output"], (Some DefaultConfig, err_nil))) as Hrun
    by (vm_compute; reflexivity).
  split; [exact Hrun |].
  apply (LoadConfig_result (list string) stat_in mkdir_in (fun _ _ => None)
           (fun _ cfg => (cfg, LibError "unexpected end of JSON input")) fmt_d
           ∅ "config.json" [] ["output"] (Some DefaultConfig) err_nil Hrun).
Defined.
